(** * na_ontap_gather_facts: the ONTAP fact collector

    A shallow embedding of
    [lib/ansible/modules/storage/netapp/na_ontap_gather_facts.py]
    (class [NetAppGatherFacts], [_finditem], [convert_keys]) together
    with the properties of its normalisation routine, its failure
    policy and its interface-group derivation. *)

From Stdlib Require Import String Ascii List ZArith Bool Lia.
Set Warnings "-register-all".
Import ListNotations.
Local Open Scope string_scope.
Local Open Scope list_scope.

(* ===================================================================== *)
(** ** Python values *)
(* ===================================================================== *)

(** What [xmltodict.parse] and [json.loads] build: [None], strings,
    integers, lists, and dicts with string keys.  A dict is kept as an
    association list in insertion order, because [dict.items()] is
    enumerated in that order by [_finditem] and [convert_keys]. *)
Inductive value : Type :=
| VNone
| VStr (s : string)
| VInt (z : Z)
| VList (l : list value)
| VDict (items : list (string * value)).

(** Hashable values, the only ones that can serve as a dict key. *)
Inductive hkey : Type :=
| KNone
| KStr (s : string)
| KInt (z : Z).

(** The exceptions the module can end with.  [FailJson] is
    [module.fail_json(msg=...)], which terminates the run. *)
Inductive exn : Type :=
| FailJson (msg : string)
| KeyError
| TypeError
| AttributeError
| ValueError.

Inductive res (A : Type) : Type :=
| Ok (a : A)
| Err (e : exn).
Arguments Ok {A} a.
Arguments Err {A} e.

Definition res_bind {A B} (r : res A) (f : A -> res B) : res B :=
  match r with
  | Ok a => f a
  | Err e => Err e
  end.

Definition hkey_eqb (a b : hkey) : bool :=
  match a, b with
  | KNone, KNone => true
  | KStr s, KStr t => String.eqb s t
  | KInt x, KInt y => Z.eqb x y
  | _, _ => false
  end.


(* ===================================================================== *)
(** ** Dicts as insertion-ordered association lists *)
(* ===================================================================== *)

Section Dict.
Context {K V : Type} (eqb : K -> K -> bool).

(** [key in d] / [d[key]] *)
Fixpoint dict_get (k : K) (d : list (K * V)) : option V :=
  match d with
  | [] => None
  | (k', v) :: t => if eqb k k' then Some v else dict_get k t
  end.

(** [d[key] = v]: an existing key keeps its position, a new key goes
    to the end. *)
Fixpoint dict_set (k : K) (v : V) (d : list (K * V)) : list (K * V) :=
  match d with
  | [] => [(k, v)]
  | (k', v') :: t =>
      if eqb k k' then (k', v) :: t else (k', v') :: dict_set k v t
  end.

(** [d.update(other)] *)
Definition dict_update (d other : list (K * V)) : list (K * V) :=
  fold_left (fun acc kv => dict_set (fst kv) (snd kv) acc) other d.

Definition dict_keys (d : list (K * V)) : list K := map fst d.

End Dict.

Definition sget {V} := @dict_get string V String.eqb.
Definition sset {V} := @dict_set string V String.eqb.
Definition kget {V} := @dict_get hkey V hkey_eqb.
Definition kset {V} := @dict_set hkey V hkey_eqb.
Definition kupdate {V} := @dict_update hkey V hkey_eqb.

(* ===================================================================== *)
(** ** Strings *)
(* ===================================================================== *)

Definition hyphen : ascii := "-"%char.
Definition underscore : ascii := "_"%char.
Definition colon : ascii := ":"%char.

(** [k.replace('-', '_')] *)
Fixpoint replace_hyphens (s : string) : string :=
  match s with
  | EmptyString => EmptyString
  | String c t =>
      String (if Ascii.eqb c hyphen then underscore else c) (replace_hyphens t)
  end.

Fixpoint has_char (c : ascii) (s : string) : bool :=
  match s with
  | EmptyString => false
  | String c' t => Ascii.eqb c' c || has_char c t
  end.

(** [':'.join(parts)] for a list of strings *)
Fixpoint join_colon (parts : list string) : string :=
  match parts with
  | [] => ""
  | [s] => s
  | s :: t => s ++ String colon (join_colon t)
  end.

(** [s.split(':')]: the pieces between colons; never empty. *)
Fixpoint split_colon (s : string) : list string :=
  match s with
  | EmptyString => [EmptyString]
  | String c t =>
      if Ascii.eqb c colon then EmptyString :: split_colon t
      else match split_colon t with
           | [] => [String c EmptyString]
           | h :: r => String c h :: r
           end
  end.

(* ===================================================================== *)
(** ** [_finditem] and [convert_keys] *)
(* ===================================================================== *)

(** [_finditem] on a dict.  The key of the dict itself is tried first;
    then [obj.items()] is walked in order, only dict values are
    searched, and a search that comes back [None] moves on to the next
    item. *)
Fixpoint finditem_dict (key : string) (obj : value) {struct obj} : value :=
  match obj with
  | VDict items =>
      match sget key items with
      | Some x => x
      | None =>
          (fix loop (l : list (string * value)) : value :=
             match l with
             | [] => VNone
             | (_, v) :: t =>
                 match v with
                 | VDict _ =>
                     match finditem_dict key v with
                     | VNone => loop t
                     | item => item
                     end
                 | _ => loop t
                 end
             end) items
      end
  | _ => VNone
  end.

(** The inner loop of [finditem_dict], by name. *)
Fixpoint finditem_children (key : string) (l : list (string * value)) : value :=
  match l with
  | [] => VNone
  | (_, v) :: t =>
      match v with
      | VDict _ =>
          match finditem_dict key v with
          | VNone => finditem_children key t
          | item => item
          end
      | _ => finditem_children key t
      end
  end.

(** [_finditem(obj, key)].  On a dict it is the search above.  On any
    other object either [key in obj], [obj[key]] or [obj.items()]
    raises: a string fails on [obj[key]] when [key] is a substring and
    on [.items()] otherwise, a list likewise with membership, [None]
    and integers fail on [key in obj]. *)
Definition _finditem (obj : value) (key : string) : res value :=
  match obj with
  | VDict _ => Ok (finditem_dict key obj)
  | VStr s =>
      match String.index 0 key s with
      | Some _ => Err TypeError
      | None => Err AttributeError
      end
  | VList l =>
      if existsb (fun x => match x with VStr s => String.eqb s key | _ => false end) l
      then Err TypeError else Err AttributeError
  | VNone | VInt _ => Err TypeError
  end.

(** [convert_keys(d)]: a dict is rebuilt item by item into a fresh
    dict under the rewritten names; anything that is not a dict is
    returned as it is. *)
Fixpoint convert_keys (d : value) {struct d} : value :=
  match d with
  | VDict items =>
      VDict ((fix loop (l out : list (string * value)) : list (string * value) :=
                match l with
                | [] => out
                | (k, v) :: t =>
                    loop t (sset (replace_hyphens k) (convert_keys v) out)
                end) items [])
  | _ => d
  end.

Fixpoint convert_items (l out : list (string * value)) : list (string * value) :=
  match l with
  | [] => out
  | (k, v) :: t => convert_items t (sset (replace_hyphens k) (convert_keys v) out)
  end.

(** [json.loads(json.dumps(d))] copies a tree of [None], strings,
    integers, lists and string-keyed dicts unchanged. *)
Definition json_roundtrip (d : value) : value := d.

(** [d[attribute]] on a parsed record *)
Definition subscript (d : value) (k : string) : res value :=
  match d with
  | VDict items =>
      match sget k items with
      | Some v => Ok v
      | None => Err KeyError
      end
  | _ => Err TypeError
  end.

(** A value used as a dict key: dicts and lists are unhashable. *)
Definition hash_key (v : value) : res hkey :=
  match v with
  | VNone => Ok KNone
  | VStr s => Ok (KStr s)
  | VInt z => Ok (KInt z)
  | VList _ | VDict _ => Err TypeError
  end.

(** The items handed to [':'.join]: every one has to be a string. *)
Fixpoint join_values (vs : list value) : res (list string) :=
  match vs with
  | [] => Ok []
  | VStr s :: t => res_bind (join_values t) (fun r => Ok (s :: r))
  | _ :: _ => Err TypeError
  end.

(** Structural induction on values, through lists and dict items. *)
Section ValueInd.
Variable P : value -> Prop.
Hypothesis HNone : P VNone.
Hypothesis HStr : forall s, P (VStr s).
Hypothesis HInt : forall z, P (VInt z).
Hypothesis HList : forall l, Forall P l -> P (VList l).
Hypothesis HDict : forall items, Forall (fun kv => P (snd kv)) items -> P (VDict items).

Fixpoint value_induction (v : value) : P v :=
  match v with
  | VNone => HNone
  | VStr s => HStr s
  | VInt z => HInt z
  | VList l =>
      HList l ((fix go (l : list value) : Forall P l :=
                  match l with
                  | [] => Forall_nil _
                  | x :: t => Forall_cons x (value_induction x) (go t)
                  end) l)
  | VDict items =>
      HDict items
        ((fix go (l : list (string * value)) : Forall (fun kv => P (snd kv)) l :=
            match l with
            | [] => Forall_nil _
            | (k, x) :: t =>
                Forall_cons (k, x) (value_induction x) (go t)
            end) items)
  end.
End ValueInd.



(* ===================================================================== *)
(** ** Fact tables, the session and the collector state *)
(* ===================================================================== *)

(** The [field] argument of [get_generic_get_iter]: [None], one field
    name, or a tuple of field names. *)
Inductive field_spec : Type :=
| FNone
| FStr (f : string)
| FTuple (fs : list string).

(** What [get_generic_get_iter] builds in [out]: a list of records
    ([field is None]) or a dict from unique key to record. *)
Inductive table : Type :=
| TList (records : list value)
| TDict (entries : list (hkey * value)).

(** [self.netapp_info]: category name to table, or to [None]. *)
Definition facts : Type := list (string * option table).

(** The children added to the request by [call_api], in the order of
    [query.items()]. *)
Definition query : Type := list (string * string).
Definition request : Type := (string * query)%type.

(** Modelled from the spec: the response object of the vendor client
    ([netapp_lib]'s [NaElement]), which is not part of this module.  It
    exposes "get named child container" and "list children"; each child
    of a container is kept as the nested mapping that the structured-tree
    parser [xmltodict.parse(child.to_string(), xml_attribs=False)]
    turns it into. *)
Definition na_element : Type := list (string * list value).

Definition get_child_by_name (e : na_element) (name : string)
  : option (list value) :=
  sget name e.

(** Modelled from the spec: the outcome of "send and wait for response"
    ([invoke_successfully]): a response, or the protocol-level error
    [NaApiError], carried here as the text [to_native(e)]. *)
Inductive api_result : Type :=
| Response (r : na_element)
| NaApiError (detail : string).

Record state : Type := mkState {
  netapp_info : facts;
  log : list request
}.

(** Computations of the collector: they read and write [netapp_info],
    record the requests sent, and either return or raise. *)
Definition M (A : Type) : Type := state -> res A * state.

Definition ret {A} (a : A) : M A := fun st => (Ok a, st).

Definition bind {A B} (m : M A) (f : A -> M B) : M B :=
  fun st =>
    match m st with
    | (Ok a, st') => f a st'
    | (Err e, st') => (Err e, st')
    end.

Definition lift {A} (r : res A) : M A := fun st => (r, st).

Declare Scope collector_scope.
Delimit Scope collector_scope with M.
Notation "x <- m ;; k" := (bind m (fun x => k))
  (at level 61, m at next level, right associativity) : collector_scope.
Notation "m ;; k" := (bind m (fun _ => k))
  (at level 61, right associativity) : collector_scope.
Notation "x <~ r ; k" := (res_bind r (fun x => k))
  (at level 61, r at next level, right associativity).

(** The state once a request has gone out. *)
Definition sent (st : state) (req : request) : state :=
  mkState (netapp_info st) (log st ++ [req]).

(** [self.netapp_info[name] = v] *)
Definition set_info (name : string) (v : option table) : M unit :=
  fun st => (Ok tt, mkState (sset name v (netapp_info st)) (log st)).

Definition get_info : M facts := fun st => (Ok (netapp_info st), st).

Definition key_manager_call : string := "security-key-manager-key-get-iter".

Definition error_message (call detail : string) : string :=
  "Error calling API " ++ call ++ ": " ++ detail.

(** [[_finditem(d, el) for el in field]] *)
Fixpoint find_each (d : value) (els : list string) : res (list value) :=
  match els with
  | [] => Ok []
  | el :: t =>
      v <~ _finditem d el;
      r <~ find_each d t;
      Ok (v :: r)
  end.

(** [if attribute is not None: d = d[attribute]] *)
Definition select_attribute (attribute : option string) (parsed : value)
  : res value :=
  match attribute with
  | Some a => subscript parsed a
  | None => Ok parsed
  end.

(** One iteration of the loop of [get_generic_get_iter] over the
    children of the container. *)
Definition add_record (attribute : option string) (field : field_spec)
    (out : table) (parsed : value) : res table :=
  d <~ select_attribute attribute parsed;
  match field with
  | FStr f =>
      unique_key <~ _finditem d f;
      k <~ hash_key unique_key;
      match out with
      | TDict o => Ok (TDict (kupdate o [(k, convert_keys (json_roundtrip d))]))
      | TList _ => Err AttributeError
      end
  | FTuple fs =>
      found <~ find_each d fs;
      parts <~ join_values found;
      match out with
      | TDict o =>
          Ok (TDict (kupdate o [(KStr (join_colon parts),
                                  convert_keys (json_roundtrip d))]))
      | TList _ => Err AttributeError
      end
  | FNone =>
      match out with
      | TList l => Ok (TList (l ++ [convert_keys (json_roundtrip d)]))
      | TDict _ => Err AttributeError
      end
  end.

Fixpoint add_records (attribute : option string) (field : field_spec)
    (children : list value) (out : table) : res table :=
  match children with
  | [] => Ok out
  | child :: t =>
      out' <~ add_record attribute field out child;
      add_records attribute field t out'
  end.

(** [ifgrps]: the keys of the network-port table whose record has
    [port_type == 'if_group'] (first loop of [get_ifgrp_info]). *)
Fixpoint select_ifgrps (net_port_info : list (hkey * value))
    (interfaces ifgrps : list hkey) : res (list hkey) :=
  match interfaces with
  | [] => Ok ifgrps
  | ifn :: t =>
      rec <~ match kget ifn net_port_info with
             | Some r => Ok r
             | None => Err KeyError
             end;
      port_type <~ subscript rec "port_type";
      match port_type with
      | VStr s =>
          if String.eqb s "if_group"
          then select_ifgrps net_port_info t (ifgrps ++ [ifn])
          else select_ifgrps net_port_info t ifgrps
      | _ => select_ifgrps net_port_info t ifgrps
      end
  end.

(** [query['node'], query['ifgrp-name'] = ifgrp.split(':')] *)
Definition ifgrp_query (ifgrp : hkey) : res query :=
  match ifgrp with
  | KStr s =>
      match split_colon s with
      | [node; name] => Ok [("node", node); ("ifgrp-name", name)]
      | _ => Err ValueError
      end
  | KNone | KInt _ => Err AttributeError
  end.

(* ===================================================================== *)
(** ** The collector: [NetAppGatherFacts] *)
(* ===================================================================== *)

Section Collector.
(** The session: what [invoke_successfully] answers to a request,
    given the requests sent before it. *)
Variable server : list request -> request -> api_result.

Local Open Scope collector_scope.

(** [call_api(call, query)].  An empty [query] adds no children. *)
Definition call_api (call : string) (q : query) : M (option na_element) :=
  fun st =>
    let api_call : request := (call, q) in
    let st' := mkState (netapp_info st) (log st ++ [api_call]) in
    match server (log st) api_call with
    | Response result => (Ok (Some result), st')
    | NaApiError e =>
        if existsb (String.eqb call) [key_manager_call]
        then (Ok None, st')
        else (Err (FailJson (error_message call e)), st')
    end.

(** [get_generic_get_iter(call, attribute, field, query, children)] *)
Definition get_generic_get_iter (call : string) (attribute : option string)
    (field : field_spec) (q : query) (children : string) : M (option table) :=
  generic_call <- call_api call q ;;
  match generic_call with
  | None => ret None
  | Some response =>
      let out := match field with
                 | FNone => TList []
                 | _ => TDict []
                 end in
      match get_child_by_name response children with
      | None => ret None
      | Some attributes_list =>
          out' <- lift (add_records attribute field attributes_list out) ;;
          ret (Some out')
      end
  end.

(** The second loop of [get_ifgrp_info]: one lookup per interface
    group, each result merged into [net_ifgrp_info]. *)
Fixpoint merge_ifgrps (ifgrps : list hkey) (net_ifgrp_info : list (hkey * value))
  : M (list (hkey * value)) :=
  match ifgrps with
  | [] => ret net_ifgrp_info
  | ifgrp :: t =>
      q <- lift (ifgrp_query ifgrp) ;;
      tmp <- get_generic_get_iter "net-port-ifgrp-get" (Some "net-ifgrp-info")
               (FTuple ["node"; "ifgrp-name"]) q "attributes" ;;
      match tmp with
      | Some (TDict d) => merge_ifgrps t (kupdate net_ifgrp_info d)
      | Some (TList _) => lift (Err TypeError)
      | None => lift (Err TypeError)
      end
  end.

(** [get_ifgrp_info()] *)
Definition get_ifgrp_info : M table :=
  info <- get_info ;;
  net_port_info <- lift (match sget "net_port_info" info with
                         | Some v => Ok v
                         | None => Err KeyError
                         end) ;;
  match net_port_info with
  | Some (TDict npi) =>
      let interfaces := dict_keys npi in
      ifgrps <- lift (select_ifgrps npi interfaces []) ;;
      net_ifgrp_info <- merge_ifgrps ifgrps [] ;;
      ret (TDict net_ifgrp_info)
  | Some (TList _) => lift (Err AttributeError)
  | None => lift (Err AttributeError)
  end.

Definition max_records : query := [("max-records", "1024")].

(** [self.netapp_info[name] = self.get_generic_get_iter(...)] with the
    default container ['attributes-list']. *)
Definition collect (name call attribute : string) (field : field_spec) : M unit :=
  t <- get_generic_get_iter call (Some attribute) field max_records
         "attributes-list" ;;
  set_info name t.

Definition collect_ifgrp : M unit :=
  t <- get_ifgrp_info ;;
  set_info "net_ifgrp_info" (Some t).

Definition collect_key_manager : M unit :=
  collect "security_key_manager_key_info" key_manager_call
    "security-key-manager-key-info" (FTuple ["node"; "key-id"]).

Definition collect_vserver : M unit :=
  collect "vserver_info" "vserver-get-iter" "vserver-info" (FStr "vserver-name").

(** [get_all()] *)
Definition get_all : M facts :=
  collect "net_interface_info" "net-interface-get-iter" "net-interface-info"
    (FStr "interface-name") ;;
  collect "net_port_info" "net-port-get-iter" "net-port-info"
    (FTuple ["node"; "port"]) ;;
  collect "cluster_node_info" "cluster-node-get-iter" "cluster-node-info"
    (FStr "node-name") ;;
  collect "security_login_account_info" "security-login-get-iter"
    "security-login-account-info"
    (FTuple ["user-name"; "application"; "authentication-method"]) ;;
  collect "aggregate_info" "aggr-get-iter" "aggr-attributes"
    (FStr "aggregate-name") ;;
  collect "volume_info" "volume-get-iter" "volume-attributes"
    (FTuple ["name"; "owning-vserver-name"; "aggr-name"]) ;;
  collect "lun_info" "lun-get-iter" "lun-info" (FStr "path") ;;
  collect "storage_failover_info" "cf-get-iter" "storage-failover-info"
    (FStr "node") ;;
  collect_ifgrp ;;
  collect "vserver_motd_info" "vserver-motd-get-iter" "vserver-motd-info"
    (FStr "vserver") ;;
  collect "vserver_login_banner_info" "vserver-login-banner-get-iter"
    "vserver-login-banner-info" (FStr "vserver") ;;
  collect_key_manager ;;
  collect_vserver ;;
  get_info.

(** [NetAppGatherFacts.__init__]: [self.netapp_info = dict()]; nothing
    has been sent yet. *)
Definition initial : state := mkState [] [].

(** The statements of [get_all] that come before the interface-group
    step, and those that come before the key-manager step. *)
Definition collect_before_ifgrp : M unit :=
  collect "net_interface_info" "net-interface-get-iter" "net-interface-info"
    (FStr "interface-name") ;;
  collect "net_port_info" "net-port-get-iter" "net-port-info"
    (FTuple ["node"; "port"]) ;;
  collect "cluster_node_info" "cluster-node-get-iter" "cluster-node-info"
    (FStr "node-name") ;;
  collect "security_login_account_info" "security-login-get-iter"
    "security-login-account-info"
    (FTuple ["user-name"; "application"; "authentication-method"]) ;;
  collect "aggregate_info" "aggr-get-iter" "aggr-attributes"
    (FStr "aggregate-name") ;;
  collect "volume_info" "volume-get-iter" "volume-attributes"
    (FTuple ["name"; "owning-vserver-name"; "aggr-name"]) ;;
  collect "lun_info" "lun-get-iter" "lun-info" (FStr "path") ;;
  collect "storage_failover_info" "cf-get-iter" "storage-failover-info"
    (FStr "node").

Definition collect_before_key_manager : M unit :=
  collect_before_ifgrp ;;
  collect_ifgrp ;;
  collect "vserver_motd_info" "vserver-motd-get-iter" "vserver-motd-info"
    (FStr "vserver") ;;
  collect "vserver_login_banner_info" "vserver-login-banner-get-iter"
    "vserver-login-banner-info" (FStr "vserver").

(** A request that met a protocol-level error outside the key-manager
    exemption, sent after the requests [h]. *)
Definition failed_at (h : list request) (req : request) (detail : string) : Prop :=
  server h req = NaApiError detail /\ fst req <> key_manager_call.

(** No request of [h] met such an error. *)
Definition clean (h : list request) : Prop :=
  forall pre req post detail,
    h = pre ++ req :: post -> ~ failed_at pre req detail.

(** The last request of [h] met such an error, and the computation
    ended in [fail_json] with the call name and the error detail. *)
Definition aborted {A} (r : res A) (h : list request) : Prop :=
  exists pre call q detail,
    h = pre ++ [(call, q)] /\ clean pre /\
    failed_at pre (call, q) detail /\
    r = Err (FailJson (error_message call detail)).

(** A computation that stops at the first such error. *)
Definition fail_fast {A} (m : M A) : Prop :=
  forall st, clean (log st) ->
    clean (log (snd (m st))) \/ aborted (fst (m st)) (log (snd (m st))).

End Collector.

(* ===================================================================== *)
(** ** Specification-side notions *)
(* ===================================================================== *)

(** A field name in underscored form: no hyphen left in it. *)
Definition underscored (name : string) : bool := negb (has_char hyphen name).

(** Every field name of every mapping inside [v], whether the mapping
    is reached through mappings or through sequences. *)
Fixpoint names_underscored (v : value) : bool :=
  match v with
  | VDict items =>
      forallb (fun kv => underscored (fst kv) && names_underscored (snd kv)) items
  | VList l => forallb names_underscored l
  | _ => true
  end.

(** Every field name of every mapping inside [v] that is reached
    through mappings only. *)
Fixpoint dict_names_underscored (v : value) : bool :=
  match v with
  | VDict items =>
      forallb (fun kv => underscored (fst kv) && dict_names_underscored (snd kv))
        items
  | _ => true
  end.

(** The rewriting of one item. *)
Definition convert_item (kv : string * value) : string * value :=
  (replace_hyphens (fst kv), convert_keys (snd kv)).

(** The mappings of a record in depth-first order, a parent before its
    children, children in their order of appearance. *)
Fixpoint mappings_preorder (v : value) : list (list (string * value)) :=
  match v with
  | VDict items => items :: flat_map (fun kv => mappings_preorder (snd kv)) items
  | _ => []
  end.

(** The value under [key] in the first mapping that holds [key]. *)
Fixpoint first_holding (key : string) (ms : list (list (string * value)))
  : option value :=
  match ms with
  | [] => None
  | m :: t =>
      match sget key m with
      | Some x => Some x
      | None => first_holding key t
      end
  end.

(** The first value under [key] that is not [None]. *)
Fixpoint first_present (key : string) (ms : list (list (string * value)))
  : option value :=
  match ms with
  | [] => None
  | m :: t =>
      match sget key m with
      | Some VNone | None => first_present key t
      | Some x => Some x
      end
  end.

Definition or_none (o : option value) : value :=
  match o with
  | Some x => x
  | None => VNone
  end.

(** First match of a depth-first, parent-first search for [key]. *)
Definition dfs_first_match (key : string) (obj : value) : value :=
  or_none (first_holding key (mappings_preorder obj)).

(** The values of a mapping that are themselves mappings, in order. *)
Fixpoint child_mappings (items : list (string * value)) : list value :=
  match items with
  | [] => []
  | (_, VDict sub) :: t => VDict sub :: child_mappings t
  | _ :: t => child_mappings t
  end.

(** The first element of a list of search results that is not [None]. *)
Fixpoint first_found (results : list value) : value :=
  match results with
  | [] => VNone
  | VNone :: t => first_found t
  | item :: _ => item
  end.

(** The unique key that a keyed descriptor derives from a record [d],
    searched in [d] as parsed. *)
Definition derived_key (field : field_spec) (d : value) : res hkey :=
  match field with
  | FStr f => v <~ _finditem d f; hash_key v
  | FTuple fs =>
      found <~ find_each d fs;
      parts <~ join_values found;
      Ok (KStr (join_colon parts))
  | FNone => Err TypeError
  end.

(** The table entry of one child of the container: its unique key and
    its normalized record. *)
Definition record_entry (attribute : option string) (field : field_spec)
    (parsed : value) : res (hkey * value) :=
  d <~ select_attribute attribute parsed;
  k <~ derived_key field d;
  Ok (k, convert_keys d).

Definition keyed (field : field_spec) : bool :=
  match field with
  | FNone => false
  | _ => true
  end.

(** [key] is a field name of the record or of a mapping nested in it
    through mappings. *)
Definition occurs (key : string) (d : value) : bool :=
  existsb (fun m => match sget key m with Some _ => true | None => false end)
    (mappings_preorder d).

(** A string without [':']. *)
Definition colon_free (s : string) : bool := negb (has_char colon s).

(** The port type recorded for the entry [k] of a network-port table. *)
Definition port_type_of (npi : list (hkey * value)) (k : hkey) : res value :=
  match kget k npi with
  | Some rec => subscript rec "port_type"
  | None => Err KeyError
  end.

(** The entry [k] is a port of type ['if_group']. *)
Definition is_ifgrp (npi : list (hkey * value)) (k : hkey) : bool :=
  match port_type_of npi k with
  | Ok (VStr s) => String.eqb s "if_group"
  | _ => false
  end.

(** An interface group as a pair (node, group name): its composite key
    in the network-port table and the lookup issued for it. *)
Definition ifgrp_key (g : string * string) : hkey :=
  KStr (fst g ++ ":" ++ snd g).

Definition ifgrp_request (g : string * string) : request :=
  ("net-port-ifgrp-get", [("node", fst g); ("ifgrp-name", snd g)]).

(** The interface-group lookups for [groups], sent one after the other
    from [st], come back with the tables [tables]. *)
Fixpoint lookups_return (server : list request -> request -> api_result)
    (st : state) (groups : list (string * string))
    (tables : list (list (hkey * value))) : Prop :=
  match groups, tables with
  | [], [] => True
  | g :: gs, t :: ts =>
      fst (get_generic_get_iter server "net-port-ifgrp-get" (Some "net-ifgrp-info")
             (FTuple ["node"; "ifgrp-name"]) (snd (ifgrp_request g))
             "attributes" st) = Ok (Some (TDict t)) /\
      lookups_return server (sent st (ifgrp_request g)) gs ts
  | _, _ => False
  end.

(** Sample records. *)
Definition nested_record : value :=
  VDict [("owning-vserver-name", VDict [("sub-field", VInt 1)])].

Definition record_with_sequence : value :=
  VDict [("plex-name", VStr "p0");
         ("raid-groups", VList [VDict [("disk-count", VStr "5")]])].

Definition record_with_empty_field : value :=
  VDict [("a", VDict [("k", VNone); ("b", VDict [("k", VStr "x")])]);
         ("c", VDict [("k", VStr "y")])].

Definition sample_volume_attributes : value :=
  VDict [("volume-id-attributes",
          VDict [("name", VStr "vol-1"); ("owning-vserver-name", VStr "vs-a")]);
         ("volume-state-attributes", VDict [("state", VStr "online")])].

Definition sample_volume : value :=
  VDict [("volume-attributes", sample_volume_attributes)].

Definition sample_node (name uptime : string) : value :=
  VDict [("cluster-node-info",
          VDict [("node-name", VStr name); ("node-uptime", VStr uptime)])].

Definition sample_lun_without_path : value :=
  VDict [("lun-info", VDict [("size", VStr "1024"); ("comment", VNone)])].

(** ** A session stub with canned responses *)

Definition iter_response (children : list value) : na_element :=
  [("num-records", []); ("attributes-list", children)].

Definition net_port (node port port_type : string) : value :=
  VDict [("net-port-info",
          VDict [("node", VStr node); ("port", VStr port);
                 ("port-type", VStr port_type)])].

Definition canned_response (req : request) : na_element :=
  let call := fst req in
  if call =? "net-interface-get-iter" then
    iter_response
      [VDict [("net-interface-info",
               VDict [("interface-name", VStr "lif1"); ("home-node", VStr "nodeA")])]]
  else if call =? "net-port-get-iter" then
    iter_response [net_port "nodeA" "a0a" "if_group"; net_port "nodeA" "e0c" "physical"]
  else if call =? "net-port-ifgrp-get" then
    [("attributes",
      [VDict [("net-ifgrp-info",
               VDict (map (fun kv => (fst kv, VStr (snd kv))) (snd req)
                        ++ [("mode", VStr "multimode_lacp")]))]])]
  else if call =? "cluster-node-get-iter" then
    iter_response [sample_node "nodeA" "86400"; sample_node "nodeB" "86000"]
  else if call =? "security-login-get-iter" then
    iter_response
      [VDict [("security-login-account-info",
               VDict [("user-name", VStr "admin"); ("application", VStr "ssh");
                      ("authentication-method", VStr "password")])]]
  else if call =? "aggr-get-iter" then
    iter_response
      [VDict [("aggr-attributes",
               VDict [("aggregate-name", VStr "aggr1");
                      ("aggr-raid-attributes", VDict [("disk-count", VStr "12")])])]]
  else if call =? "volume-get-iter" then
    iter_response
      [VDict [("volume-attributes",
               VDict [("volume-id-attributes",
                       VDict [("name", VStr "vol1");
                              ("owning-vserver-name", VStr "vs1");
                              ("aggr-list", VDict [("aggr-name", VStr "aggr1")])])])]]
  else if call =? "lun-get-iter" then
    iter_response
      [VDict [("lun-info", VDict [("path", VStr "/vol/vol1/lun1"); ("size", VStr "1024")])]]
  else if call =? "cf-get-iter" then
    iter_response
      [VDict [("storage-failover-info",
               VDict [("sfo-node-info",
                       VDict [("node-related-info", VDict [("node", VStr "nodeA")])])])]]
  else if call =? "vserver-motd-get-iter" then
    iter_response
      [VDict [("vserver-motd-info", VDict [("vserver", VStr "vs1"); ("message", VNone)])]]
  else if call =? "vserver-login-banner-get-iter" then
    iter_response
      [VDict [("vserver-login-banner-info",
               VDict [("vserver", VStr "vs1"); ("message", VStr "hello")])]]
  else if call =? key_manager_call then
    iter_response
      [VDict [("security-key-manager-key-info",
               VDict [("node", VStr "nodeA"); ("key-id", VStr "0001")])]]
  else if call =? "vserver-get-iter" then
    iter_response [VDict [("vserver-info", VDict [("vserver-name", VStr "vs1")])]]
  else [].

(** The stub: the calls named in [failing] meet a protocol-level
    error, every other call gets its canned response. *)
Definition canned_server (failing : list string) (h : list request) (req : request)
  : api_result :=
  if existsb (String.eqb (fst req)) failing
  then NaApiError "entry doesn't exist"
  else Response (canned_response req).

(** A cluster that answers every call without any record container. *)
Definition empty_server (h : list request) (req : request) : api_result :=
  Response [("num-records", [])].

(** The stub with the key-manager call failing, and the states of a run
    against it before and after that call. *)
Definition key_manager_down : list request -> request -> api_result :=
  canned_server [key_manager_call].

Definition before_key_manager : state :=
  snd (collect_before_key_manager key_manager_down initial).

Definition after_key_manager : state :=
  mkState (sset "security_key_manager_key_info" None (netapp_info before_key_manager))
    (log before_key_manager ++ [(key_manager_call, max_records)]).

Definition after_vserver : state :=
  snd (collect_vserver key_manager_down after_key_manager).

(** A network-port table with one interface group, as the collector
    holds it before the interface-group step. *)
Definition port_table : list (hkey * value) :=
  [(KStr "nodeA:a0a",
    VDict [("node", VStr "nodeA"); ("port", VStr "a0a");
           ("port_type", VStr "if_group")]);
   (KStr "nodeA:e0c",
    VDict [("node", VStr "nodeA"); ("port", VStr "e0c");
           ("port_type", VStr "physical")])].

Definition ports_fetched : state :=
  mkState [("net_port_info", Some (TDict port_table))]
    [("net-port-get-iter", max_records)].

Definition physical_ports_fetched : state :=
  mkState
    [("net_port_info",
      Some (TDict
        [(KStr "nodeA:e0c",
          VDict [("node", VStr "nodeA"); ("port", VStr "e0c");
                 ("port_type", VStr "physical")])]))]
    [("net-port-get-iter", max_records)].

Definition no_ports_fetched : state :=
  mkState [("net_port_info", None)] [("net-port-get-iter", max_records)].

(** The stub with the volume call failing, and the requests that go out
    before that call. *)
Definition volume_down : list request -> request -> api_result :=
  canned_server ["volume-get-iter"].

Definition requests_before_volume : list request :=
  [("net-interface-get-iter", max_records);
   ("net-port-get-iter", max_records);
   ("cluster-node-get-iter", max_records);
   ("security-login-get-iter", max_records);
   ("aggr-get-iter", max_records)].

(** A run against the cluster without record containers, up to the
    interface-group step. *)
Definition before_ifgrp_empty : state :=
  snd (collect_before_ifgrp empty_server initial).

(** A response in which two records carry the same node name. *)
Definition repeated_node_server (h : list request) (req : request) : api_result :=
  Response (iter_response [sample_node "nodeA" "10"; sample_node "nodeB" "20";
                           sample_node "nodeA" "30"]).

(* ===================================================================== *)
(** ** The entry point: [main] *)
(* ===================================================================== *)

(** The import checks made when the module is loaded. *)
Record imports : Type := mkImports {
  HAS_XMLTODICT : bool;
  HAS_JSON : bool;
  HAS_NETAPP_LIB : bool
}.

(** What [module.exit_json(ansible_facts={'ontap_facts': g}, **result)]
    reports, with [result = {'state': state, 'changed': False}]. *)
Record exit_json : Type := mkExit {
  exit_state : string;
  exit_changed : bool;
  exit_ontap_facts : facts
}.

(** [NetAppGatherFacts.__init__(module)]: [netapp_info] starts empty;
    without the NetApp library the constructor ends in [fail_json]. *)
Definition construct (env : imports) : res unit * state :=
  if HAS_NETAPP_LIB env
  then (Ok tt, initial)
  else (Err (FailJson "the python NetApp-Lib module is required"), initial).

(** The entry [state] of [argument_spec] in [main]:
    [dict(default='info', choices=['info'])]. *)
Definition state_default : string := "info".
Definition state_choices : list string := ["info"].

(** Modelled from the spec: the check of the option [state] that
    [AnsibleModule(argument_spec=...)] makes when it is constructed
    (the class belongs to the host framework and is not part of this
    module).  An option left out takes its default; a value outside the
    choices ends the run in [fail_json] with the framework's message,
    taken here as [invalid] applied to the value.  The connection
    options of [na_ontap_host_argument_spec()] belong to the session
    and are taken as accepted. *)
Definition check_state (invalid : string -> string) (given : option string)
  : res string :=
  match given with
  | None => Ok state_default
  | Some v =>
      if existsb (String.eqb v) state_choices
      then Ok v
      else Err (FailJson (invalid v))
  end.

(** [main()], for the option [state] as the task gives it ([None] when
    it is left out) and the session that [setup_na_ontap_zapi] hands to
    the collector. *)
Definition main (env : imports) (invalid : string -> string)
    (server : list request -> request -> api_result) (given : option string)
  : res exit_json * state :=
  match check_state invalid given with
  | Err e => (Err e, initial)
  | Ok state_param =>
      if negb (HAS_XMLTODICT env) then (Err (FailJson "xmltodict missing"), initial)
      else if negb (HAS_JSON env) then (Err (FailJson "json missing"), initial)
      else
        match construct env with
        | (Err e, st) => (Err e, st)
        | (Ok _, st) =>
            match get_all server st with
            | (Ok g, st') => (Ok (mkExit state_param false g), st')
            | (Err e, st') => (Err e, st')
            end
        end
  end.

(** ** Further notions for the properties *)

(** The number of [':'] in a string. *)
Fixpoint colons (s : string) : nat :=
  match s with
  | EmptyString => 0
  | String c t => (if Ascii.eqb c colon then 1 else 0) + colons t
  end.

(** The category names of [get_all], in the order they are assigned. *)
Definition category_names : list string :=
  ["net_interface_info"; "net_port_info"; "cluster_node_info";
   "security_login_account_info"; "aggregate_info"; "volume_info"; "lun_info";
   "storage_failover_info"; "net_ifgrp_info"; "vserver_motd_info";
   "vserver_login_banner_info"; "security_key_manager_key_info"; "vserver_info"].

(** The iterator calls of [get_all] sent before and after the
    interface-group lookups. *)
Definition requests_before_ifgrp : list request :=
  [("net-interface-get-iter", max_records);
   ("net-port-get-iter", max_records);
   ("cluster-node-get-iter", max_records);
   ("security-login-get-iter", max_records);
   ("aggr-get-iter", max_records);
   ("volume-get-iter", max_records);
   ("lun-get-iter", max_records);
   ("cf-get-iter", max_records)].

Definition requests_after_ifgrp : list request :=
  [("vserver-motd-get-iter", max_records);
   ("vserver-login-banner-get-iter", max_records);
   (key_manager_call, max_records);
   ("vserver-get-iter", max_records)].

(** A category value as [get_all] can store it: [None] or a keyed table. *)
Definition none_or_keyed (t : option table) : Prop :=
  t = None \/ exists entries, t = Some (TDict entries).

(** More sample data. *)
Definition colliding_record : value :=
  VDict [("a-b", VStr "first"); ("c", VStr "kept"); ("a_b", VStr "second")].

Definition all_present : imports := mkImports true true true.

(** A message for a value outside the choices. *)
Definition sample_invalid (v : string) : string :=
  "value of state must be one of: info, got: " ++ v.

(** A session whose interface-group lookup comes back without the
    ['attributes'] container. *)
Definition ifgrp_without_attributes (h : list request) (req : request) : api_result :=
  if fst req =? "net-port-ifgrp-get" then Response [("num-records", [])]
  else Response (canned_response req).

(** A network-port table whose interface-group key carries two colons. *)
Definition odd_port_table : list (hkey * value) :=
  [(KStr "node:A:a0a",
    VDict [("node", VStr "node:A"); ("port", VStr "a0a");
           ("port_type", VStr "if_group")])].

Definition odd_ports_fetched : state :=
  mkState [("net_port_info", Some (TDict odd_port_table))]
    [("net-port-get-iter", max_records)].

(** A finished run against the stub with every call answered. *)
Definition canned_final : state := snd (get_all (canned_server []) initial).

Definition canned_facts : facts := netapp_info canned_final.

(** A LUN response whose second child lacks the ['lun-info'] element. *)
Definition good_lun : value :=
  VDict [("lun-info", VDict [("path", VStr "/vol/vol1/lun1"); ("size", VStr "1024")])].

Definition stray_child : value :=
  VDict [("lun-stats", VDict [("path", VStr "/vol/vol1/lun2")])].

Definition stray_child_server (h : list request) (req : request) : api_result :=
  Response (iter_response [good_lun; stray_child; good_lun]).

Definition node_records : list value :=
  [sample_node "nodeA" "10"; sample_node "nodeB" "20"; sample_node "nodeA" "30"].

Definition node_attributes (name uptime : string) : value :=
  VDict [("node-name", VStr name); ("node-uptime", VStr uptime)].

Definition port_records : list value :=
  [net_port "nodeA" "a0a" "if_group"; net_port "nodeA" "e0c" "physical"].

(** An aggregate record with a sequence of plexes inside. *)
Definition aggregate_with_plexes : value :=
  VDict [("aggr-attributes",
          VDict [("aggregate-name", VStr "aggr1");
                 ("aggr-raid-attributes",
                  VDict [("plexes",
                          VList [VDict [("plex-name", VStr "p0")];
                                 VDict [("plex-name", VStr "p1")]])])])].

(** The run against the stub up to the interface-group step. *)
Definition before_ifgrp_canned : state :=
  snd (collect_before_ifgrp (canned_server []) initial).

Definition canned_ifgrp_table : list (hkey * value) :=
  [(KStr "nodeA:a0a",
    VDict [("node", VStr "nodeA"); ("ifgrp_name", VStr "a0a");
           ("mode", VStr "multimode_lacp")])].

(** The stub for a cluster without interface group: its only port is
    a physical one. *)
Definition physical_only_server (h : list request) (req : request) : api_result :=
  if fst req =? "net-port-get-iter"
  then Response (iter_response [net_port "nodeA" "e0c" "physical"])
  else Response (canned_response req).

Definition before_ifgrp_physical : state :=
  snd (collect_before_ifgrp physical_only_server initial).

Definition physical_final : state := snd (get_all physical_only_server initial).

(* ===================================================================== *)
(** * Properties *)
(* ===================================================================== *)

(** ** Dict and key lemmas *)

Lemma hkey_eqb_spec (a b : hkey) : reflect (a = b) (hkey_eqb a b).
Proof.
  destruct a, b; simpl; try (constructor; congruence).
  - destruct (String.eqb_spec s s0); constructor; congruence.
  - destruct (Z.eqb_spec z z0); constructor; congruence.
Qed.


Section DictFacts.
Context {K V : Type} (eqb : K -> K -> bool).
Implicit Types (k : K) (v : V) (d : list (K * V)).
Hypothesis eqb_spec : forall a b, reflect (a = b) (eqb a b).

Lemma dict_get_set_same k v d : dict_get eqb k (dict_set eqb k v d) = Some v.
Proof.
  induction d as [|[k' v'] t IH]; simpl.
  - destruct (eqb_spec k k); congruence.
  - destruct (eqb_spec k k') as [->|N]; simpl.
    + destruct (eqb_spec k' k'); congruence.
    + destruct (eqb_spec k k'); congruence.
Qed.

Lemma dict_get_set_other k k' v d :
  k <> k' -> dict_get eqb k (dict_set eqb k' v d) = dict_get eqb k d.
Proof.
  intros N. induction d as [|[k0 v0] t IH]; simpl.
  - destruct (eqb_spec k k'); congruence.
  - destruct (eqb_spec k' k0) as [->|N0]; simpl.
    + destruct (eqb_spec k k0); congruence.
    + destruct (eqb_spec k k0); congruence.
Qed.

Lemma dict_get_None_keys k d : dict_get eqb k d = None <-> ~ In k (dict_keys d).
Proof.
  induction d as [|[k' v'] t IH]; simpl; [tauto|].
  destruct (eqb_spec k k') as [->|N].
  - split; [discriminate|]. intros H. exfalso. apply H. now left.
  - rewrite IH. split; intros H; [intros [E|I]; [congruence|tauto]|tauto].
Qed.

End DictFacts.

(** ** Unfolding equations *)

Lemma finditem_dict_eq key items :
  finditem_dict key (VDict items) =
  match sget key items with
  | Some x => x
  | None => finditem_children key items
  end.
Proof.
  simpl. destruct (sget key items); [reflexivity|].
  induction items as [|[k v] t IH]; simpl; [reflexivity|].
  destruct v; try apply IH.
  rewrite IH. reflexivity.
Qed.

Lemma convert_keys_eq items :
  convert_keys (VDict items) = VDict (convert_items items []).
Proof.
  reflexivity.
Qed.

(** ** [convert_keys] *)

Lemma replace_hyphens_underscored name : underscored (replace_hyphens name) = true.
Proof.
  unfold underscored. induction name as [|c t IH]; simpl; [reflexivity|].
  destruct (Ascii.eqb_spec c hyphen) as [->|N]; simpl.
  - exact IH.
  - destruct (Ascii.eqb_spec c hyphen); [contradiction|]. exact IH.
Qed.

Lemma sset_forallb (ok : string * value -> bool) k v out :
  ok (k, v) = true -> forallb ok out = true ->
  forallb ok (sset k v out) = true.
Proof.
  intros Hk. induction out as [|[k0 v0] t IH]; simpl; intros H.
  - now rewrite Hk.
  - apply andb_prop in H as [H0 Ht].
    destruct (String.eqb_spec k k0) as [->|N]; simpl.
    + now rewrite Hk, Ht.
    + now rewrite H0, IH.
Qed.

Lemma sset_fresh {V} k (v : V) out :
  ~ In k (dict_keys out) -> sset k v out = out ++ [(k, v)].
Proof.
  induction out as [|[k0 v0] t IH]; simpl; intros H; [reflexivity|].
  destruct (String.eqb_spec k k0) as [->|N].
  - exfalso. apply H. now left.
  - f_equal. apply IH. tauto.
Qed.

Lemma convert_items_underscored items out :
  Forall (fun kv => dict_names_underscored (convert_keys (snd kv)) = true) items ->
  forallb (fun kv => underscored (fst kv) && dict_names_underscored (snd kv)) out = true ->
  forallb (fun kv => underscored (fst kv) && dict_names_underscored (snd kv))
    (convert_items items out) = true.
Proof.
  intros H. revert out. induction H as [|[k v] t Hv Ht IH]; intros out Hout; simpl.
  - exact Hout.
  - apply IH. apply sset_forallb; [|exact Hout].
    simpl in *. now rewrite replace_hyphens_underscored, Hv.
Qed.

Lemma convert_keys_dict_names d : dict_names_underscored (convert_keys d) = true.
Proof.
  induction d using value_induction; try reflexivity.
  rewrite convert_keys_eq. simpl.
  now apply convert_items_underscored.
Qed.

Lemma convert_items_fresh items out :
  NoDup (dict_keys out ++ map (fun kv => replace_hyphens (fst kv)) items) ->
  convert_items items out = out ++ map convert_item items.
Proof.
  revert out. induction items as [|[k v] t IH]; intros out H; simpl.
  - now rewrite app_nil_r.
  - assert (Hk : ~ In (replace_hyphens k) (dict_keys out)).
    { simpl in H. apply NoDup_remove_2 in H. intros I. apply H.
      apply in_or_app. now left. }
    rewrite (sset_fresh _ _ _ Hk). rewrite IH.
    + rewrite <- app_assoc. reflexivity.
    + unfold dict_keys. rewrite map_app. simpl. rewrite <- app_assoc. exact H.
Qed.

(** C3, as stated, fails: a mapping that sits inside a sequence keeps
    its hyphenated field names, because [convert_keys] returns every
    non-dict value, a list included, as it is. *)
Lemma convert_keys_skips_sequences :
  convert_keys record_with_sequence =
    VDict [("plex_name", VStr "p0");
           ("raid_groups", VList [VDict [("disk-count", VStr "5")]])] /\
  names_underscored (convert_keys record_with_sequence) = false.
Proof. split; reflexivity. Qed.

(** C3, amended: [convert_keys] replaces every hyphen by an underscore
    in the field names of the record and of every mapping nested in it
    through mappings, at every depth; when the rewritten names of a
    mapping are distinct, its items keep their order and each value is
    rewritten in turn; a sequence is returned unchanged; and the
    record [{"owning-vserver-name": {"sub-field": 1}}] becomes
    [{"owning_vserver_name": {"sub_field": 1}}]. *)
Theorem convert_keys_rewrites_mappings :
  (forall d, dict_names_underscored (convert_keys d) = true) /\
  (forall items,
      NoDup (map (fun kv => replace_hyphens (fst kv)) items) ->
      convert_keys (VDict items) = VDict (map convert_item items)) /\
  (forall l, convert_keys (VList l) = VList l) /\
  convert_keys nested_record =
    VDict [("owning_vserver_name", VDict [("sub_field", VInt 1)])].
Proof.
  split; [exact convert_keys_dict_names|].
  split; [|split; reflexivity].
  intros items H. rewrite convert_keys_eq.
  now rewrite (convert_items_fresh items []).
Qed.

Lemma convert_keys_rewrites_mappings_witness :
  NoDup (map (fun kv => replace_hyphens (fst kv))
           [("aggr-name", VStr "a1"); ("volume-id", VDict [("owning-vserver-name", VStr "vs")])]) /\
  convert_keys
    (VDict [("aggr-name", VStr "a1");
            ("volume-id", VDict [("owning-vserver-name", VStr "vs")])]) =
  VDict (map convert_item
    [("aggr-name", VStr "a1");
     ("volume-id", VDict [("owning-vserver-name", VStr "vs")])]).
Proof.
  assert (H : NoDup (map (fun kv => replace_hyphens (fst kv))
           [("aggr-name", VStr "a1");
            ("volume-id", VDict [("owning-vserver-name", VStr "vs")])])).
  { simpl. repeat constructor; simpl; intuition discriminate. }
  split; [exact H|].
  exact (proj1 (proj2 convert_keys_rewrites_mappings) _ H).
Defined.

(** ** [_finditem] *)

Lemma first_holding_app key ms1 ms2 :
  first_holding key (ms1 ++ ms2) =
  match first_holding key ms1 with
  | Some x => Some x
  | None => first_holding key ms2
  end.
Proof.
  induction ms1 as [|m t IH]; simpl; [reflexivity|].
  destruct (sget key m); [reflexivity|exact IH].
Qed.

Lemma first_holding_In key ms x :
  first_holding key ms = Some x -> exists m, In m ms /\ sget key m = Some x.
Proof.
  induction ms as [|m t IH]; simpl; [discriminate|].
  destruct (sget key m) eqn:E; intros H.
  - injection H as ->. exists m. auto.
  - destruct (IH H) as (m' & I & G). exists m'. auto.
Qed.

Lemma finditem_children_found key items :
  finditem_children key items =
  first_found (map (finditem_dict key) (child_mappings items)).
Proof.
  induction items as [|[k v] t IH]; simpl; [reflexivity|].
  destruct v; try exact IH.
  cbn [map first_found]. rewrite IH.
  destruct (finditem_dict key (VDict items)); reflexivity.
Qed.

Lemma finditem_dict_dfs key obj :
  (forall m, In m (mappings_preorder obj) -> sget key m <> Some VNone) ->
  finditem_dict key obj = dfs_first_match key obj.
Proof.
  unfold dfs_first_match.
  induction obj as [| | | |items IH] using value_induction; try reflexivity.
  intros Hpresent. rewrite finditem_dict_eq.
  cbn [mappings_preorder first_holding].
  destruct (sget key items) as [x|] eqn:E; [reflexivity|].
  assert (Hsub : forall m,
             In m (flat_map (fun kv => mappings_preorder (snd kv)) items) ->
             sget key m <> Some VNone).
  { intros m I. apply Hpresent. now right. }
  clear Hpresent E.
  induction IH as [|[k v] t Hv Ht IHt]; [reflexivity|].
  cbn [flat_map snd] in *. rewrite first_holding_app.
  assert (Hv' : finditem_dict key v =
                or_none (first_holding key (mappings_preorder v))).
  { apply Hv. intros m I. apply Hsub. apply in_or_app. now left. }
  assert (Ht' : finditem_children key t =
                or_none (first_holding key
                           (flat_map (fun kv => mappings_preorder (snd kv)) t))).
  { apply IHt. intros m I. apply Hsub. apply in_or_app. now right. }
  destruct (first_holding key (mappings_preorder v)) as [x|] eqn:E.
  - destruct (first_holding_In _ _ _ E) as (m & I & G).
    assert (Hx : x <> VNone).
    { intros ->. apply (Hsub m); [apply in_or_app; now left|exact G]. }
    destruct v; try discriminate E.
    cbn [finditem_children]. rewrite Hv'. cbn [or_none].
    destruct x; try reflexivity. now elim Hx.
  - destruct v; cbn [finditem_children]; try exact Ht'.
    rewrite Hv'. cbn [or_none]. exact Ht'.
Qed.

(** C7, as stated, fails.  In
    [{"a": {"k": None, "b": {"k": "x"}}, "c": {"k": "y"}}] the first
    mapping holding ["k"] in depth-first, parent-first order is ["a"]
    (value [None]), and the first value under ["k"] that is not [None]
    is ["x"]; [_finditem] returns ["y"]: the search of ["a"] stops at
    its own ["k"], comes back [None], and the loop moves on to ["c"]. *)
Lemma finditem_skips_empty_field :
  _finditem record_with_empty_field "k" = Ok (VStr "y") /\
  dfs_first_match "k" record_with_empty_field = VNone /\
  first_present "k" (mappings_preorder record_with_empty_field) = Some (VStr "x").
Proof. repeat split; reflexivity. Qed.

(** C7, amended: on a mapping, [_finditem] returns the value under the
    key at the current mapping if the key is present there (whatever
    the value); otherwise it searches the child mappings in their order
    of appearance and returns the first search result that is not
    [None], or [None] if there is none, so that a child whose own search
    yields [None] is passed over.  When no mapping of the record holds
    the key with value [None], this is the first match of a depth-first,
    parent-first traversal. *)
Theorem finditem_first_found :
  forall items key,
    _finditem (VDict items) key =
      Ok (match sget key items with
          | Some x => x
          | None => first_found (map (finditem_dict key) (child_mappings items))
          end) /\
    ((forall m, In m (mappings_preorder (VDict items)) ->
                sget key m <> Some VNone) ->
     _finditem (VDict items) key = Ok (dfs_first_match key (VDict items))).
Proof.
  intros items key. split.
  - unfold _finditem. rewrite finditem_dict_eq, finditem_children_found.
    reflexivity.
  - intros H. unfold _finditem. now rewrite finditem_dict_dfs.
Qed.

Lemma finditem_first_found_witness :
  (forall m,
      In m (mappings_preorder
              (VDict [("volume-id-attributes",
                       VDict [("name", VStr "vol1"); ("comment", VNone)]);
                      ("volume-state-attributes", VDict [("state", VStr "online")])])) ->
      sget "state" m <> Some VNone) /\
  _finditem
    (VDict [("volume-id-attributes",
             VDict [("name", VStr "vol1"); ("comment", VNone)]);
            ("volume-state-attributes", VDict [("state", VStr "online")])])
    "state" = Ok (VStr "online").
Proof.
  assert (H : forall m,
      In m (mappings_preorder
              (VDict [("volume-id-attributes",
                       VDict [("name", VStr "vol1"); ("comment", VNone)]);
                      ("volume-state-attributes", VDict [("state", VStr "online")])])) ->
      sget "state" m <> Some VNone).
  { simpl. intros m [<-|[<-|[<-|[]]]]; simpl; discriminate. }
  split; [exact H|].
  exact (proj2 (finditem_first_found _ "state") H).
Defined.

(** ** One record of a response *)

Lemma add_record_keyed attribute field out parsed :
  keyed field = true ->
  add_record attribute field (TDict out) parsed =
  (e <~ record_entry attribute field parsed;
   Ok (TDict (kset (fst e) (snd e) out))).
Proof.
  intros Hk. unfold add_record, record_entry.
  destruct (select_attribute attribute parsed) as [d|e]; [|reflexivity].
  destruct field as [|f|fs]; [discriminate| |]; cbn [res_bind derived_key].
  - destruct (_finditem d f) as [v|e]; [|reflexivity]. cbn [res_bind].
    destruct (hash_key v); reflexivity.
  - destruct (find_each d fs) as [found|e]; [|reflexivity]. cbn [res_bind].
    destruct (join_values found); reflexivity.
Qed.

Lemma join_values_strs parts : join_values (map VStr parts) = Ok parts.
Proof.
  induction parts as [|s t IH]; simpl; [reflexivity|]. now rewrite IH.
Qed.

Lemma join_values_inv vs parts :
  join_values vs = Ok parts -> vs = map VStr parts.
Proof.
  revert parts. induction vs as [|v t IH]; simpl; intros parts H.
  - injection H as <-. reflexivity.
  - destruct v; try discriminate.
    destruct (join_values t) as [r|]; [|discriminate].
    injection H as <-. simpl. f_equal. now apply IH.
Qed.

Lemma join_values_error vs e : join_values vs = Err e -> e = TypeError.
Proof.
  induction vs as [|v t IH]; simpl; [discriminate|].
  destruct v; try (intros H; injection H as <-; reflexivity).
  destruct (join_values t); [discriminate|].
  intros H. injection H as <-. now apply IH.
Qed.

Lemma join_values_none vs : In VNone vs -> join_values vs = Err TypeError.
Proof.
  intros I. destruct (join_values vs) as [parts|e] eqn:E.
  - apply join_values_inv in E. subst vs. apply in_map_iff in I.
    destruct I as (s & D & _). discriminate.
  - f_equal. now apply join_values_error in E.
Qed.

Lemma find_each_Forall2 d fs vs :
  find_each d fs = Ok vs <-> Forall2 (fun el v => _finditem d el = Ok v) fs vs.
Proof.
  revert vs. induction fs as [|el t IH]; simpl; intros vs.
  - split.
    + intros H. injection H as <-. constructor.
    + intros H. inversion H. reflexivity.
  - split.
    + destruct (_finditem d el) as [v|] eqn:E; [|discriminate]. cbn [res_bind].
      destruct (find_each d t) as [r|] eqn:Er; [|discriminate].
      intros H. injection H as <-. constructor; [exact E|]. now apply IH.
    + intros H. inversion H as [|? v ? r Hv Hr]; subst.
      rewrite Hv. cbn [res_bind]. apply IH in Hr. now rewrite Hr.
Qed.

Lemma find_each_dict items fs :
  find_each (VDict items) fs =
  Ok (map (fun el => finditem_dict el (VDict items)) fs).
Proof.
  induction fs as [|el t IH]; [reflexivity|].
  cbn [find_each _finditem res_bind map]. now rewrite IH.
Qed.

Lemma finditem_ok_dict d key v :
  _finditem d key = Ok v -> exists items, d = VDict items.
Proof.
  destruct d; simpl; try discriminate.
  - destruct (index 0 key s); discriminate.
  - destruct (existsb _ l); discriminate.
  - eauto.
Qed.

Lemma finditem_children_In key items x :
  finditem_children key items = x -> x <> VNone ->
  exists k sub, In (k, VDict sub) items /\ finditem_dict key (VDict sub) = x.
Proof.
  intros H N. induction items as [|[k v] t IH]; simpl in H; [congruence|].
  assert (Ht : finditem_children key t = x ->
               exists k' sub, In (k', VDict sub) ((k, v) :: t) /\
                              finditem_dict key (VDict sub) = x).
  { intros G. destruct (IH G) as (k' & sub & I & F).
    exists k', sub. split; [now right|exact F]. }
  destruct v as [| | | |sub0]; try (now apply Ht).
  destruct (finditem_dict key (VDict sub0)) eqn:F; try (now apply Ht);
    exists k, sub0; (split; [now left|congruence]).
Qed.

Lemma finditem_dict_occurs key d x :
  finditem_dict key d = x -> x <> VNone -> occurs key d = true.
Proof.
  unfold occurs. revert x.
  induction d as [| | | |items IH] using value_induction; intros x Hx N;
    try (simpl in Hx; congruence).
  rewrite finditem_dict_eq in Hx. cbn [mappings_preorder existsb].
  destruct (sget key items) as [y|] eqn:E; [reflexivity|]. simpl.
  destruct (finditem_children_In _ _ _ Hx N) as (k & sub & I & F).
  rewrite Forall_forall in IH. specialize (IH _ I _ F N). simpl snd in IH.
  apply existsb_exists in IH. destruct IH as (m & Im & Hm).
  apply existsb_exists. exists m. split; [|exact Hm].
  apply in_flat_map. exists (k, VDict sub). auto.
Qed.

(** C2, as stated, fails in its last part: the stored record does not
    have all its field names underscored.  The key is taken from the
    record as parsed, but a mapping that sits inside a sequence of the
    record is stored with its hyphenated field names. *)
Lemma stored_record_keeps_sequence_names :
  add_record (Some "aggr-attributes") (FStr "aggregate-name") (TDict [])
    aggregate_with_plexes =
    Ok (TDict
          [(KStr "aggr1",
            VDict [("aggregate_name", VStr "aggr1");
                   ("aggr_raid_attributes",
                    VDict [("plexes",
                            VList [VDict [("plex-name", VStr "p0")];
                                   VDict [("plex-name", VStr "p1")]])])])]) /\
  names_underscored
    (VDict [("aggregate_name", VStr "aggr1");
            ("aggr_raid_attributes",
             VDict [("plexes",
                     VList [VDict [("plex-name", VStr "p0")];
                            VDict [("plex-name", VStr "p1")]])])]) = false.
Proof. split; reflexivity. Qed.

(** C2, amended: the unique key of a record is taken from the record
    as parsed, before any field name is rewritten.  With one key field
    the key is the value found for that field, unchanged; with a tuple
    of key fields it is the found values joined by [':'] in the
    declared order.  The record stored under the key is the rewritten
    one: the field names of the record and of every mapping nested in
    it through mappings carry no hyphen (a sequence is stored as it
    is). *)
Theorem key_from_unrewritten_record :
  forall attribute parsed d out,
    select_attribute attribute parsed = Ok d ->
    (forall f v k,
        _finditem d f = Ok v -> hash_key v = Ok k ->
        add_record attribute (FStr f) (TDict out) parsed =
          Ok (TDict (kset k (convert_keys d) out))) /\
    (forall fs parts,
        Forall2 (fun el s => _finditem d el = Ok (VStr s)) fs parts ->
        add_record attribute (FTuple fs) (TDict out) parsed =
          Ok (TDict (kset (KStr (join_colon parts)) (convert_keys d) out))) /\
    dict_names_underscored (convert_keys d) = true.
Proof.
  intros attribute parsed d out Hd. repeat split.
  - intros f v k Hv Hk. unfold add_record. rewrite Hd. cbn [res_bind].
    rewrite Hv. cbn [res_bind]. rewrite Hk. reflexivity.
  - intros fs parts H. unfold add_record. rewrite Hd. cbn [res_bind].
    assert (E : find_each d fs = Ok (map VStr parts)).
    { apply find_each_Forall2. clear Hd.
      induction H; simpl; constructor; auto. }
    rewrite E. cbn [res_bind]. rewrite join_values_strs. reflexivity.
  - apply convert_keys_dict_names.
Qed.

Lemma key_from_unrewritten_record_witness :
  select_attribute (Some "volume-attributes") sample_volume =
    Ok sample_volume_attributes /\
  add_record (Some "volume-attributes") (FStr "name") (TDict []) sample_volume =
    Ok (TDict
          [(KStr "vol-1",
            VDict [("volume_id_attributes",
                    VDict [("name", VStr "vol-1");
                           ("owning_vserver_name", VStr "vs-a")]);
                   ("volume_state_attributes", VDict [("state", VStr "online")])])]) /\
  add_record (Some "volume-attributes")
    (FTuple ["name"; "owning-vserver-name"; "state"]) (TDict []) sample_volume =
    Ok (TDict
          [(KStr "vol-1:vs-a:online",
            VDict [("volume_id_attributes",
                    VDict [("name", VStr "vol-1");
                           ("owning_vserver_name", VStr "vs-a")]);
                   ("volume_state_attributes", VDict [("state", VStr "online")])])]).
Proof.
  destruct (key_from_unrewritten_record (Some "volume-attributes") sample_volume
              sample_volume_attributes [] eq_refl) as (H1 & H2 & _).
  split; [reflexivity|]. split.
  - exact (H1 "name" (VStr "vol-1") (KStr "vol-1") eq_refl eq_refl).
  - apply (H2 ["name"; "owning-vserver-name"; "state"] ["vol-1"; "vs-a"; "online"]).
    repeat constructor.
Defined.

(** ** All records of a response *)

Lemma add_records_keyed attribute field children :
  keyed field = true ->
  Forall (fun r => exists e, record_entry attribute field r = Ok e) children ->
  exists es,
    Forall2 (fun r e => record_entry attribute field r = Ok e) children es /\
    forall out,
      add_records attribute field children (TDict out) = Ok (TDict (kupdate out es)).
Proof.
  intros Hk H. induction H as [|r t [e He] Ht (es & F & IH)].
  - exists []. split; [constructor|reflexivity].
  - exists (e :: es). split; [now constructor|].
    intros out. cbn [add_records]. rewrite add_record_keyed by exact Hk.
    rewrite He. cbn [res_bind]. rewrite IH. reflexivity.
Qed.

Lemma kupdate_app {V} (out es1 es2 : list (hkey * V)) :
  kupdate out (es1 ++ es2) = kupdate (kupdate out es1) es2.
Proof. unfold kupdate, dict_update. apply fold_left_app. Qed.

Lemma kupdate_keeps {V} k (v : V) es out :
  Forall (fun e => fst e <> k) es ->
  kget k out = Some v -> kget k (kupdate out es) = Some v.
Proof.
  intros H. revert out. induction H as [|[k' v'] t Hk Ht IH]; intros out G.
  - exact G.
  - cbn [kupdate dict_update fold_left fst snd]. apply IH.
    unfold kget. rewrite (dict_get_set_other _ hkey_eqb_spec); [exact G|].
    simpl in Hk. congruence.
Qed.

Lemma kupdate_last {V} k (v : V) pre post out :
  Forall (fun e => fst e <> k) post ->
  kget k (kupdate out (pre ++ (k, v) :: post)) = Some v.
Proof.
  intros H. rewrite kupdate_app.
  change ((k, v) :: post) with ([(k, v)] ++ post). rewrite kupdate_app.
  apply kupdate_keeps; [exact H|].
  cbn [kupdate dict_update fold_left fst snd].
  apply (dict_get_set_same _ hkey_eqb_spec).
Qed.

Lemma add_records_last_wins :
  forall attribute field children,
    keyed field = true ->
    Forall (fun r => exists e, record_entry attribute field r = Ok e) children ->
    exists entries,
      add_records attribute field children (TDict []) = Ok (TDict entries) /\
      forall pre r post k v,
        children = pre ++ r :: post ->
        record_entry attribute field r = Ok (k, v) ->
        Forall (fun r' => forall v', record_entry attribute field r' <> Ok (k, v'))
          post ->
        kget k entries = Some v.
Proof.
  intros attribute field children Hk H.
  destruct (add_records_keyed attribute field children Hk H) as (es & F & Hrun).
  exists (kupdate [] es). split; [apply Hrun|].
  intros pre r post k v -> Hr Hpost.
  apply Forall2_app_inv_l in F. destruct F as (epre & erest & Fpre & Frest & ->).
  inversion Frest as [|? e ? epost He Fpost]; subst.
  rewrite Hr in He. injection He as <-.
  apply kupdate_last.
  clear - Fpost Hpost. induction Fpost as [|r' [k' v'] t et Hr' Ft IH].
  - constructor.
  - inversion Hpost; subst. constructor; [|now apply IH].
    simpl. intros ->. eapply H1. exact Hr'.
Qed.

(** C9: a record without a configured key field is not rejected.
    With one key field, a search that finds nothing stores the record
    under [None].  With a tuple of key fields, one field that is not
    found makes the join of the key values raise [TypeError]; hence
    when the step succeeds, every listed field occurs in the record and
    was found with a string value. *)
Theorem missing_key_field :
  forall attribute parsed d out,
    select_attribute attribute parsed = Ok d ->
    (forall f,
        _finditem d f = Ok VNone ->
        add_record attribute (FStr f) (TDict out) parsed =
          Ok (TDict (kset KNone (convert_keys d) out))) /\
    (forall fs el,
        In el fs -> _finditem d el = Ok VNone ->
        add_record attribute (FTuple fs) (TDict out) parsed = Err TypeError) /\
    (forall fs t,
        add_record attribute (FTuple fs) (TDict out) parsed = Ok t ->
        forall el, In el fs ->
          occurs el d = true /\ exists s, _finditem d el = Ok (VStr s)).
Proof.
  intros attribute parsed d out Hd. repeat split.
  - intros f Hf. unfold add_record. rewrite Hd. cbn [res_bind].
    rewrite Hf. reflexivity.
  - intros fs el I Hel. unfold add_record. rewrite Hd. cbn [res_bind].
    destruct (finditem_ok_dict _ _ _ Hel) as (items & ->).
    rewrite find_each_dict. cbn [res_bind].
    rewrite join_values_none; [reflexivity|].
    apply in_map_iff. exists el. split; [|exact I].
    simpl in Hel. now injection Hel.
  - unfold add_record in H. rewrite Hd in H. cbn [res_bind] in H.
    destruct (find_each d fs) as [found|] eqn:E; [|discriminate].
    cbn [res_bind] in H.
    destruct (join_values found) as [parts|] eqn:J; [|discriminate].
    apply join_values_inv in J. subst found.
    apply find_each_Forall2 in E.
    clear H. revert parts E. induction fs as [|a t' IH]; [contradiction|].
    intros parts E. destruct parts as [|s ps]; inversion E; subst.
    destruct H0 as [->|I].
    + destruct (finditem_ok_dict _ _ _ H3) as (items & ->).
      eapply finditem_dict_occurs with (x := VStr s); [|discriminate].
      simpl in H3. now injection H3.
    + now apply (IH I ps).
  - unfold add_record in H. rewrite Hd in H. cbn [res_bind] in H.
    destruct (find_each d fs) as [found|] eqn:E; [|discriminate].
    cbn [res_bind] in H.
    destruct (join_values found) as [parts|] eqn:J; [|discriminate].
    apply join_values_inv in J. subst found.
    apply find_each_Forall2 in E.
    clear H. revert parts E. induction fs as [|a t' IH]; [contradiction|].
    intros parts E. destruct parts as [|s ps]; inversion E; subst.
    destruct H0 as [->|I].
    + now exists s.
    + now apply (IH I ps).
Qed.

Lemma missing_key_field_witness :
  select_attribute (Some "lun-info") sample_lun_without_path =
    Ok (VDict [("size", VStr "1024"); ("comment", VNone)]) /\
  _finditem (VDict [("size", VStr "1024"); ("comment", VNone)]) "path" = Ok VNone /\
  add_record (Some "lun-info") (FStr "path") (TDict []) sample_lun_without_path =
    Ok (TDict [(KNone, VDict [("size", VStr "1024"); ("comment", VNone)])]) /\
  add_record (Some "lun-info") (FTuple ["size"; "path"]) (TDict [])
    sample_lun_without_path = Err TypeError /\
  add_record (Some "lun-info") (FTuple ["size"]) (TDict [])
    sample_lun_without_path =
    Ok (TDict [(KStr "1024", VDict [("size", VStr "1024"); ("comment", VNone)])]) /\
  occurs "size" (VDict [("size", VStr "1024"); ("comment", VNone)]) = true.
Proof.
  destruct (missing_key_field (Some "lun-info") sample_lun_without_path
              (VDict [("size", VStr "1024"); ("comment", VNone)]) [] eq_refl)
    as (H1 & H2 & H3).
  split; [reflexivity|]. split; [reflexivity|]. split; [|split; [|split]].
  - exact (H1 "path" eq_refl).
  - exact (H2 ["size"; "path"] "path" (or_intror (or_introl eq_refl)) eq_refl).
  - reflexivity.
  - exact (proj1 (H3 ["size"] _ eq_refl "size" (or_introl eq_refl))).
Defined.

(** ** The collector *)

Lemma bind_ok {A B} (m : M A) (f : A -> M B) st a st' :
  m st = (Ok a, st') -> bind m f st = f a st'.
Proof. intros H. unfold bind. now rewrite H. Qed.

Lemma bind_err {A B} (m : M A) (f : A -> M B) st e st' :
  m st = (Err e, st') -> bind m f st = (Err e, st').
Proof. intros H. unfold bind. now rewrite H. Qed.

Lemma snoc_split {A} (h : list A) a pre r post :
  h ++ [a] = pre ++ r :: post ->
  (post = [] /\ pre = h /\ r = a) \/
  (exists post', post = post' ++ [a] /\ h = pre ++ r :: post').
Proof.
  intros H. induction post as [|x l _] using rev_ind.
  - left. apply app_inj_tail in H. destruct H as [-> ->]. auto.
  - right. exists l.
    change (pre ++ r :: l ++ [x]) with (pre ++ (r :: l) ++ [x]) in H.
    rewrite app_assoc in H. apply app_inj_tail in H. destruct H as [-> ->]. auto.
Qed.

Section CollectorFacts.
Variable server : list request -> request -> api_result.

Lemma call_api_response call q st r :
  server (log st) (call, q) = Response r ->
  call_api server call q st = (Ok (Some r), sent st (call, q)).
Proof. intros H. unfold call_api. now rewrite H. Qed.

Lemma call_api_error call q st detail :
  server (log st) (call, q) = NaApiError detail ->
  call_api server call q st =
  (if String.eqb call key_manager_call
   then Ok None
   else Err (FailJson (error_message call detail)), sent st (call, q)).
Proof.
  intros H. unfold call_api. rewrite H. cbn [existsb]. rewrite orb_false_r.
  destruct (String.eqb call key_manager_call); reflexivity.
Qed.

Lemma get_generic_get_iter_absent call attribute field q children st st' :
  call_api server call q st = (Ok None, st') ->
  get_generic_get_iter server call attribute field q children st = (Ok None, st').
Proof. intros H. unfold get_generic_get_iter. now rewrite (bind_ok _ _ _ _ _ H). Qed.

Lemma get_generic_get_iter_error call attribute field q children st e st' :
  call_api server call q st = (Err e, st') ->
  get_generic_get_iter server call attribute field q children st = (Err e, st').
Proof. intros H. unfold get_generic_get_iter. now rewrite (bind_err _ _ _ _ _ H). Qed.

Lemma get_generic_get_iter_response call attribute field q children st r :
  server (log st) (call, q) = Response r ->
  get_generic_get_iter server call attribute field q children st =
  (match get_child_by_name r children with
   | None => Ok None
   | Some attributes_list =>
       t <~ add_records attribute field attributes_list
              (match field with FNone => TList [] | _ => TDict [] end);
       Ok (Some t)
   end, sent st (call, q)).
Proof.
  intros H. unfold get_generic_get_iter.
  rewrite (bind_ok _ _ _ _ _ (call_api_response _ _ _ _ H)).
  destruct (get_child_by_name r children) as [kids|]; [|reflexivity].
  unfold bind, lift, ret.
  destruct (add_records attribute field kids _); reflexivity.
Qed.

Lemma get_generic_get_iter_log call attribute field q children st :
  snd (get_generic_get_iter server call attribute field q children st) =
  sent st (call, q).
Proof.
  destruct (server (log st) (call, q)) as [r|detail] eqn:E.
  - now rewrite (get_generic_get_iter_response _ _ _ _ _ _ _ E).
  - pose proof (call_api_error _ _ _ _ E) as H.
    destruct (String.eqb call key_manager_call).
    + now rewrite (get_generic_get_iter_absent _ _ _ _ _ _ _ H).
    + now rewrite (get_generic_get_iter_error _ _ _ _ _ _ _ _ H).
Qed.

(** *** Stopping at the first failed call *)

Lemma clean_nil : clean server [].
Proof. intros pre req post d H. now destruct pre. Qed.

Lemma clean_snoc h req :
  clean server h -> (forall d, ~ failed_at server h req d) ->
  clean server (h ++ [req]).
Proof.
  intros Hc Hreq pre r post d H.
  destruct (snoc_split _ _ _ _ _ H) as [(-> & -> & ->)|(post' & -> & ->)].
  - apply Hreq.
  - now apply (Hc pre r post' d).
Qed.

Lemma aborted_not_ok {A} (a : A) h : ~ aborted server (Ok a) h.
Proof. intros (pre & call & q & d & _ & _ & _ & H). discriminate. Qed.

Lemma aborted_retype {A B} e h :
  aborted server (@Err A e) h -> aborted server (@Err B e) h.
Proof.
  intros (pre & call & q & d & H1 & H2 & H3 & H4).
  exists pre, call, q, d. repeat split; try assumption; try apply H3.
  injection H4 as ->. reflexivity.
Qed.

Lemma fail_fast_silent {A} (m : M A) :
  (forall st, log (snd (m st)) = log st) -> fail_fast server m.
Proof. intros H st Hc. left. now rewrite H. Qed.

Lemma fail_fast_ret {A} (a : A) : fail_fast server (ret a).
Proof. now apply fail_fast_silent. Qed.

Lemma fail_fast_lift {A} (r : res A) : fail_fast server (lift r).
Proof. now apply fail_fast_silent. Qed.

Lemma fail_fast_bind {A B} (m : M A) (f : A -> M B) :
  fail_fast server m -> (forall a, fail_fast server (f a)) ->
  fail_fast server (bind m f).
Proof.
  intros Hm Hf st Hc. specialize (Hm st Hc). unfold bind.
  destruct (m st) as [[a|e] st']; cbn [fst snd] in *.
  - destruct Hm as [Hm|Hm]; [apply Hf; exact Hm|].
    now apply aborted_not_ok in Hm.
  - destruct Hm as [Hm|Hm]; [now left|right].
    exact (aborted_retype (A:=A) (B:=B) _ _ Hm).
Qed.

Lemma fail_fast_call_api call q : fail_fast server (call_api server call q).
Proof.
  intros st Hc. destruct (server (log st) (call, q)) as [r|d] eqn:E.
  - rewrite (call_api_response _ _ _ _ E). left. cbn [snd sent log].
    apply clean_snoc; [exact Hc|]. intros d [H _]. congruence.
  - rewrite (call_api_error _ _ _ _ E). cbn [fst snd sent log].
    destruct (String.eqb_spec call key_manager_call) as [->|N].
    + left. apply clean_snoc; [exact Hc|]. intros d' [_ H]. now apply H.
    + right. exists (log st), call, q, d. repeat split; auto.
Qed.

Lemma fail_fast_get_generic_get_iter call attribute field q children :
  fail_fast server (get_generic_get_iter server call attribute field q children).
Proof.
  unfold get_generic_get_iter.
  apply fail_fast_bind; [apply fail_fast_call_api|].
  intros [r|]; [|apply fail_fast_ret].
  destruct (get_child_by_name r children); [|apply fail_fast_ret].
  apply fail_fast_bind; [apply fail_fast_lift|]. intros t. apply fail_fast_ret.
Qed.

Lemma fail_fast_merge_ifgrps ifgrps acc :
  fail_fast server (merge_ifgrps server ifgrps acc).
Proof.
  revert acc. induction ifgrps as [|g t IH]; intros acc; cbn [merge_ifgrps].
  - apply fail_fast_ret.
  - apply fail_fast_bind; [apply fail_fast_lift|]. intros q.
    apply fail_fast_bind; [apply fail_fast_get_generic_get_iter|].
    intros [[l|d]|]; [apply fail_fast_lift|apply IH|apply fail_fast_lift].
Qed.

Lemma fail_fast_get_ifgrp_info : fail_fast server (get_ifgrp_info server).
Proof.
  unfold get_ifgrp_info.
  apply fail_fast_bind; [now apply fail_fast_silent|]. intros info.
  apply fail_fast_bind; [apply fail_fast_lift|].
  intros [[l|npi]|]; try apply fail_fast_lift.
  apply fail_fast_bind; [apply fail_fast_lift|]. intros ifgrps.
  apply fail_fast_bind; [apply fail_fast_merge_ifgrps|]. intros t.
  apply fail_fast_ret.
Qed.

Lemma fail_fast_collect name call attribute field :
  fail_fast server (collect server name call attribute field).
Proof.
  unfold collect.
  apply fail_fast_bind; [apply fail_fast_get_generic_get_iter|].
  intros t. now apply fail_fast_silent.
Qed.

Lemma fail_fast_collect_ifgrp : fail_fast server (collect_ifgrp server).
Proof.
  unfold collect_ifgrp.
  apply fail_fast_bind; [apply fail_fast_get_ifgrp_info|].
  intros t. now apply fail_fast_silent.
Qed.

Lemma fail_fast_get_all : fail_fast server (get_all server).
Proof.
  unfold get_all, collect_key_manager, collect_vserver.
  repeat (apply fail_fast_bind;
          [first [apply fail_fast_collect|apply fail_fast_collect_ifgrp]|intros _]).
  now apply fail_fast_silent.
Qed.

(** C4: in a run of [get_all], a call other than
    ['security-key-manager-key-get-iter'] that meets a protocol-level
    error ends the run there: no further request is sent, no fact set
    is returned, and the run fails with the message
    ["Error calling API <call>: <detail>"]. *)
Theorem failed_call_aborts_run :
  forall r st' pre call q post detail,
    get_all server initial = (r, st') ->
    log st' = pre ++ (call, q) :: post ->
    server pre (call, q) = NaApiError detail ->
    call <> key_manager_call ->
    r = Err (FailJson ("Error calling API " ++ call ++ ": " ++ detail)) /\
    post = [].
Proof.
  intros r st' pre call q post detail Hrun Hlog Hfail Hcall.
  pose proof (fail_fast_get_all initial clean_nil) as H.
  rewrite Hrun in H. cbn [fst snd] in H. destruct H as [H|H].
  - exfalso. apply (H pre (call, q) post detail Hlog). now split.
  - destruct H as (pre' & call' & q' & d' & Hl & Hc & [Hf _] & ->).
    rewrite Hl in Hlog.
    destruct (snoc_split _ _ _ _ _ Hlog) as [(-> & -> & E)|(post' & -> & ->)].
    + injection E as <- <-. rewrite Hf in Hfail. injection Hfail as ->.
      split; reflexivity.
    + exfalso. apply (Hc pre (call, q) post' detail eq_refl). now split.
Qed.

(** *** The statements of [get_all], one after the other *)

Ltac run_step :=
  match goal with
  | |- context [collect server ?a ?b ?c ?d ?s] =>
      destruct (collect server a b c d s) as [[[]|?] ?]; [|reflexivity]
  | |- context [collect_ifgrp server ?s] =>
      destruct (collect_ifgrp server s) as [[[]|?] ?]; [|reflexivity]
  end.

Lemma get_all_from_ifgrp st :
  get_all server st =
  bind (collect_before_ifgrp server) (fun _ =>
  bind (collect_ifgrp server) (fun _ =>
  bind (collect server "vserver_motd_info" "vserver-motd-get-iter"
          "vserver-motd-info" (FStr "vserver")) (fun _ =>
  bind (collect server "vserver_login_banner_info" "vserver-login-banner-get-iter"
          "vserver-login-banner-info" (FStr "vserver")) (fun _ =>
  bind (collect_key_manager server) (fun _ =>
  bind (collect_vserver server) (fun _ => get_info)))))) st.
Proof.
  unfold get_all, collect_before_ifgrp, bind.
  do 8 run_step. reflexivity.
Qed.

Lemma get_all_from_key_manager st :
  get_all server st =
  bind (collect_before_key_manager server) (fun _ =>
  bind (collect_key_manager server) (fun _ =>
  bind (collect_vserver server) (fun _ => get_info))) st.
Proof.
  rewrite get_all_from_ifgrp. unfold collect_before_key_manager, bind.
  destruct (collect_before_ifgrp server st) as [[[]|?] ?]; [|reflexivity].
  do 3 run_step. reflexivity.
Qed.

Lemma collect_absent name call attribute field st st' :
  call_api server call max_records st = (Ok None, st') ->
  collect server name call attribute field st =
  (Ok tt, mkState (sset name None (netapp_info st')) (log st')).
Proof.
  intros H. unfold collect.
  now rewrite (bind_ok _ _ _ _ _ (get_generic_get_iter_absent _ _ _ _ _ _ _ H)).
Qed.

Lemma collect_ok name call attribute field st st' :
  collect server name call attribute field st = (Ok tt, st') ->
  exists t, st' = mkState (sset name t (netapp_info st))
                    (log st ++ [(call, max_records)]).
Proof.
  unfold collect, bind.
  pose proof (get_generic_get_iter_log call (Some attribute) field max_records
                "attributes-list" st) as Hlog.
  destruct (get_generic_get_iter server call (Some attribute) field max_records
              "attributes-list" st) as [[t|e] st1]; [|discriminate].
  cbn [snd] in Hlog. subst st1. unfold set_info. intros H. injection H as <-.
  exists t. reflexivity.
Qed.

Lemma key_manager_absent_run st0 st1 detail st3 :
  collect_before_key_manager server st0 = (Ok tt, st1) ->
  server (log st1) (key_manager_call, max_records) = NaApiError detail ->
  collect_vserver server
    (mkState (sset "security_key_manager_key_info" None (netapp_info st1))
       (log st1 ++ [(key_manager_call, max_records)])) = (Ok tt, st3) ->
  get_all server st0 = (Ok (netapp_info st3), st3) /\
  sget "security_key_manager_key_info" (netapp_info st3) = Some None.
Proof.
  intros Hpre Hkm Hvs. split.
  - rewrite get_all_from_key_manager.
    rewrite (bind_ok _ _ _ _ _ Hpre).
    assert (Hc : collect_key_manager server st1 =
                 (Ok tt, mkState (sset "security_key_manager_key_info" None
                                    (netapp_info st1))
                           (log st1 ++ [(key_manager_call, max_records)]))).
    { unfold collect_key_manager.
      rewrite (collect_absent _ _ _ _ st1 (sent st1 (key_manager_call, max_records)));
        [reflexivity|].
      rewrite (call_api_error _ _ _ _ Hkm). reflexivity. }
    rewrite (bind_ok _ _ _ _ _ Hc). rewrite (bind_ok _ _ _ _ _ Hvs). reflexivity.
  - apply collect_ok in Hvs. destruct Hvs as (t & ->). cbn [netapp_info].
    unfold sget, sset.
    rewrite (dict_get_set_other _ String.eqb_spec) by discriminate.
    apply (dict_get_set_same _ String.eqb_spec).
Qed.

(** C1: a protocol-level error of a call is downgraded exactly when the
    call is ['security-key-manager-key-get-iter']: [call_api] then
    returns no response, where for any other call it ends in
    [fail_json].  In [get_all], a failed key-manager call leaves
    ['security_key_manager_key_info'] mapped to [None] and the run goes
    on to its end; the same error of any other call ends the run in
    failure. *)
Theorem key_manager_failure_downgraded :
  (forall call q st detail,
      server (log st) (call, q) = NaApiError detail ->
      call_api server call q st =
      (if String.eqb call key_manager_call
       then Ok None
       else Err (FailJson (error_message call detail)), sent st (call, q))) /\
  (forall st1 detail st3,
      collect_before_key_manager server initial = (Ok tt, st1) ->
      server (log st1) (key_manager_call, max_records) = NaApiError detail ->
      collect_vserver server
        (mkState (sset "security_key_manager_key_info" None (netapp_info st1))
           (log st1 ++ [(key_manager_call, max_records)])) = (Ok tt, st3) ->
      get_all server initial = (Ok (netapp_info st3), st3) /\
      sget "security_key_manager_key_info" (netapp_info st3) = Some None) /\
  (forall r st' pre call q post detail,
      get_all server initial = (r, st') ->
      log st' = pre ++ (call, q) :: post ->
      server pre (call, q) = NaApiError detail ->
      call <> key_manager_call ->
      exists msg, r = Err (FailJson msg)).
Proof.
  split; [exact call_api_error|]. split; [apply key_manager_absent_run|].
  intros r st' pre call q post detail Hrun Hlog Hfail Hcall.
  pose proof (fail_fast_get_all initial clean_nil) as H.
  rewrite Hrun in H. cbn [fst snd] in H. destruct H as [H|H].
  - exfalso. apply (H pre (call, q) post detail Hlog). now split.
  - destruct H as (_ & call' & _ & d' & _ & _ & _ & ->). eauto.
Qed.

(** C5, amended: when the call yields no response,
    [get_generic_get_iter] returns [None], and the assignment in
    [get_all] stores it: the category key is present in the fact set
    and mapped to [None], neither missing nor mapped to an empty
    collection.  For the key-manager category this is what the
    finished run returns. *)
Theorem absent_response_maps_category_to_none :
  (forall call attribute field q children st st',
      call_api server call q st = (Ok None, st') ->
      get_generic_get_iter server call attribute field q children st =
        (Ok None, st')) /\
  (forall name call attribute field st st',
      call_api server call max_records st = (Ok None, st') ->
      exists st'',
        collect server name call attribute field st = (Ok tt, st'') /\
        sget name (netapp_info st'') = Some None) /\
  (forall st1 detail st3,
      collect_before_key_manager server initial = (Ok tt, st1) ->
      server (log st1) (key_manager_call, max_records) = NaApiError detail ->
      collect_vserver server
        (mkState (sset "security_key_manager_key_info" None (netapp_info st1))
           (log st1 ++ [(key_manager_call, max_records)])) = (Ok tt, st3) ->
      exists fact_set,
        fst (get_all server initial) = Ok fact_set /\
        In "security_key_manager_key_info" (dict_keys fact_set) /\
        sget "security_key_manager_key_info" fact_set = Some None).
Proof.
  split; [exact get_generic_get_iter_absent|]. split.
  - intros name call attribute field st st' H.
    rewrite (collect_absent _ _ _ _ _ _ H). eexists. split; [reflexivity|].
    cbn [netapp_info]. apply (dict_get_set_same _ String.eqb_spec).
  - intros st1 detail st3 Hpre Hkm Hvs.
    destruct (key_manager_absent_run _ _ _ _ Hpre Hkm Hvs) as [Hrun Hget].
    exists (netapp_info st3). rewrite Hrun. split; [reflexivity|].
    split; [|exact Hget].
    destruct (in_dec string_dec "security_key_manager_key_info"
                (dict_keys (netapp_info st3))) as [I|N]; [exact I|].
    apply (dict_get_None_keys _ String.eqb_spec) in N.
    unfold sget in Hget. congruence.
Qed.

(** C8: [get_generic_get_iter] neither deduplicates nor detects
    collisions.  When the call is answered and every record of the
    container yields a key, a table is returned, and it maps each key
    to the normalized form of the last record deriving it: a later
    record with the same key overwrites the earlier one. *)
Theorem later_record_overwrites :
  forall call attribute field q container st response children,
    keyed field = true ->
    server (log st) (call, q) = Response response ->
    get_child_by_name response container = Some children ->
    Forall (fun r => exists e, record_entry attribute field r = Ok e) children ->
    exists entries,
      get_generic_get_iter server call attribute field q container st =
        (Ok (Some (TDict entries)), sent st (call, q)) /\
      forall pre r post k v,
        children = pre ++ r :: post ->
        record_entry attribute field r = Ok (k, v) ->
        Forall (fun r' => forall v', record_entry attribute field r' <> Ok (k, v'))
          post ->
        kget k entries = Some v.
Proof.
  intros call attribute field q container st response children Hk Hr Hc Hall.
  destruct (add_records_last_wins attribute field children Hk Hall)
    as (entries & Hrun & Hlast).
  exists entries. split; [|exact Hlast].
  rewrite (get_generic_get_iter_response _ _ _ _ _ _ _ Hr), Hc.
  destruct field; [discriminate| |]; now rewrite Hrun.
Qed.

(** *** Interface groups *)

Lemma split_colon_free s : colon_free s = true -> split_colon s = [s].
Proof.
  unfold colon_free. induction s as [|c t IH]; simpl; [reflexivity|].
  destruct (Ascii.eqb c colon); simpl; [discriminate|].
  intros H. now rewrite (IH H).
Qed.

Lemma split_colon_app n rest :
  colon_free n = true ->
  split_colon (n ++ String colon rest) = n :: split_colon rest.
Proof.
  unfold colon_free. induction n as [|c t IH]; simpl.
  - reflexivity.
  - destruct (Ascii.eqb c colon); simpl; [discriminate|].
    intros H. now rewrite (IH H).
Qed.

Lemma ifgrp_query_key g :
  colon_free (fst g) = true -> colon_free (snd g) = true ->
  ifgrp_query (ifgrp_key g) = Ok (snd (ifgrp_request g)).
Proof.
  intros Hn Hg. unfold ifgrp_query, ifgrp_key.
  change (fst g ++ ":" ++ snd g)%string with (fst g ++ String colon (snd g))%string.
  rewrite (split_colon_app _ _ Hn), (split_colon_free _ Hg). reflexivity.
Qed.

Lemma filter_none {A} (f : A -> bool) l :
  (forall x, In x l -> f x = false) -> filter f l = [].
Proof.
  induction l as [|x t IH]; intros H; simpl; [reflexivity|].
  rewrite (H x (or_introl eq_refl)). apply IH. intros y I. apply H. now right.
Qed.

Lemma select_ifgrps_filter npi interfaces ifgrps :
  (forall k, In k interfaces -> exists pt, port_type_of npi k = Ok pt) ->
  select_ifgrps npi interfaces ifgrps =
  Ok (ifgrps ++ filter (is_ifgrp npi) interfaces).
Proof.
  revert ifgrps. induction interfaces as [|k t IH]; intros ifgrps H; simpl.
  - now rewrite app_nil_r.
  - destruct (H k (or_introl eq_refl)) as (pt & Hpt).
    assert (Ht : forall k', In k' t -> exists pt', port_type_of npi k' = Ok pt').
    { intros k' I. apply H. now right. }
    unfold is_ifgrp. unfold port_type_of in Hpt |- *.
    destruct (kget k npi) as [rec|]; [|discriminate]. cbn [res_bind].
    rewrite Hpt. cbn [res_bind].
    destruct pt; try (now apply IH).
    destruct (String.eqb s "if_group"); [|now apply IH].
    rewrite (IH _ Ht). rewrite <- app_assoc. reflexivity.
Qed.

Lemma merge_ifgrps_run groups : forall tables st acc,
  Forall (fun g => colon_free (fst g) = true /\ colon_free (snd g) = true) groups ->
  lookups_return server st groups tables ->
  merge_ifgrps server (map ifgrp_key groups) acc st =
  (Ok (fold_left kupdate tables acc),
   mkState (netapp_info st) (log st ++ map ifgrp_request groups)).
Proof.
  induction groups as [|g gs IH]; intros tables st acc Hfree Hret.
  - destruct tables; [|contradiction]. simpl. rewrite app_nil_r.
    now destruct st.
  - destruct tables as [|t ts]; [contradiction|].
    destruct Hret as [Hlookup Hrest]. inversion Hfree as [|? ? [Hn Hg] Hgs]; subst.
    cbn [map merge_ifgrps]. unfold bind at 1. unfold lift at 1.
    rewrite (ifgrp_query_key _ Hn Hg).
    pose proof (get_generic_get_iter_log "net-port-ifgrp-get" (Some "net-ifgrp-info")
                  (FTuple ["node"; "ifgrp-name"]) (snd (ifgrp_request g))
                  "attributes" st) as Hlog.
    unfold bind.
    destruct (get_generic_get_iter server "net-port-ifgrp-get" (Some "net-ifgrp-info")
                (FTuple ["node"; "ifgrp-name"]) (snd (ifgrp_request g))
                "attributes" st) as [r st1].
    cbn [fst snd] in Hlookup, Hlog. subst r st1.
    rewrite (IH ts _ _ Hgs Hrest). cbn [fold_left sent netapp_info log map].
    rewrite <- app_assoc. reflexivity.
Qed.

Lemma collect_ifgrp_stores st t st1 :
  get_ifgrp_info server st = (Ok t, st1) ->
  collect_ifgrp server st =
  (Ok tt, mkState (sset "net_ifgrp_info" (Some t) (netapp_info st1)) (log st1)).
Proof. intros H. unfold collect_ifgrp. now rewrite (bind_ok _ _ _ _ _ H). Qed.

Lemma collect_keeps name call attribute field k st st' :
  collect server name call attribute field st = (Ok tt, st') ->
  k <> name -> sget k (netapp_info st') = sget k (netapp_info st).
Proof.
  intros H N. apply collect_ok in H. destruct H as (t & ->). cbn [netapp_info].
  unfold sget, sset. now rewrite (dict_get_set_other _ String.eqb_spec).
Qed.

Lemma ifgrp_category_of_run st st2 fact_set st' :
  collect_before_ifgrp server initial = (Ok tt, st) ->
  collect_ifgrp server st = (Ok tt, st2) ->
  get_all server initial = (Ok fact_set, st') ->
  sget "net_ifgrp_info" fact_set = sget "net_ifgrp_info" (netapp_info st2) /\
  In "net_ifgrp_info" (dict_keys fact_set).
Proof.
  intros Hpre Hif H. rewrite get_all_from_ifgrp in H.
  rewrite (bind_ok _ _ _ _ _ Hpre) in H. rewrite (bind_ok _ _ _ _ _ Hif) in H.
  unfold bind, collect_key_manager, collect_vserver in H.
  repeat match type of H with
         | context [collect server ?a ?b ?c ?d ?s] =>
             let E := fresh "E" in
             destruct (collect server a b c d s) as [[[]|?] ?] eqn:E; [|discriminate]
         end.
  unfold get_info in H. injection H as <- <-.
  assert (Hget : sget "net_ifgrp_info" (netapp_info s2) =
                 sget "net_ifgrp_info" (netapp_info st2)).
  { repeat match goal with
           | E : collect server _ _ _ _ _ = (Ok tt, ?s') |- context [netapp_info ?s'] =>
               rewrite (collect_keeps _ _ _ _ "net_ifgrp_info" _ _ E) by discriminate
           end.
    reflexivity. }
  split; [exact Hget|].
  destruct (in_dec string_dec "net_ifgrp_info" (dict_keys (netapp_info s2)))
    as [I|N]; [exact I|].
  apply (dict_get_None_keys _ String.eqb_spec) in N. unfold sget in Hget.
  rewrite N in Hget.
  unfold collect_ifgrp in Hif. unfold bind in Hif.
  destruct (get_ifgrp_info server st) as [[t|e] st1]; [|discriminate].
  unfold set_info in Hif. injection Hif as <-. cbn [netapp_info] in Hget.
  unfold sget, sset in Hget.
  rewrite (dict_get_set_same _ String.eqb_spec) in Hget. discriminate.
Qed.

(** C6: the interface-group category is derived from the fetched
    network-port table.  For the entries whose [port_type] is
    ['if_group'], in table order, the composite key [node:name] is
    split at the colon, one ['net-port-ifgrp-get'] request with
    children [node] and [ifgrp-name] is sent, and the tables that come
    back are merged, in that order, into one table.  That table is what
    [get_all] stores under ['net_ifgrp_info'], and what the fact set of
    the finished run holds for the category. *)
Theorem ifgrp_info_derived :
  forall st npi groups tables,
    sget "net_port_info" (netapp_info st) = Some (Some (TDict npi)) ->
    (forall k, In k (dict_keys npi) -> exists pt, port_type_of npi k = Ok pt) ->
    filter (is_ifgrp npi) (dict_keys npi) = map ifgrp_key groups ->
    Forall (fun g => colon_free (fst g) = true /\ colon_free (snd g) = true)
      groups ->
    lookups_return server st groups tables ->
    get_ifgrp_info server st =
      (Ok (TDict (fold_left kupdate tables [])),
       mkState (netapp_info st) (log st ++ map ifgrp_request groups)) /\
    collect_ifgrp server st =
      (Ok tt,
       mkState (sset "net_ifgrp_info" (Some (TDict (fold_left kupdate tables [])))
                  (netapp_info st))
         (log st ++ map ifgrp_request groups)) /\
    (forall fact_set st',
        collect_before_ifgrp server initial = (Ok tt, st) ->
        get_all server initial = (Ok fact_set, st') ->
        sget "net_ifgrp_info" fact_set =
          Some (Some (TDict (fold_left kupdate tables [])))).
Proof.
  intros st npi groups tables Hinfo Htypes Hgroups Hfree Hret.
  assert (Hget : get_ifgrp_info server st =
                 (Ok (TDict (fold_left kupdate tables [])),
                  mkState (netapp_info st) (log st ++ map ifgrp_request groups))).
  { unfold get_ifgrp_info, bind at 1, get_info.
    unfold bind at 1, lift at 1. rewrite Hinfo.
    unfold bind at 1, lift at 1.
    rewrite (select_ifgrps_filter _ _ [] Htypes). cbn [app]. rewrite Hgroups.
    unfold bind. rewrite (merge_ifgrps_run _ _ _ _ Hfree Hret). reflexivity. }
  pose proof (collect_ifgrp_stores _ _ _ Hget) as Hstore.
  cbn [netapp_info log] in Hstore.
  split; [exact Hget|]. split; [exact Hstore|].
  intros fact_set st' Hpre Hrun.
  rewrite (proj1 (ifgrp_category_of_run _ _ _ _ Hpre Hstore Hrun)).
  cbn [netapp_info]. apply (dict_get_set_same _ String.eqb_spec).
Qed.

(** C10: [get_ifgrp_info] needs the network-port category to be a
    table.  When the category is [None] (no response or no
    ['attributes-list'] container for ['net-port-get-iter']),
    enumerating its keys raises [AttributeError], and with it [get_all]
    fails.  When the table is there and none of its ports is of type
    ['if_group'], no lookup is sent and the category is the empty
    mapping: [get_all] stores [{}] under ['net_ifgrp_info'], and the
    fact set of the finished run holds the key with that value. *)
Theorem ifgrp_info_needs_port_table :
  (forall st,
      sget "net_port_info" (netapp_info st) = Some None ->
      get_ifgrp_info server st = (Err AttributeError, st)) /\
  (forall st response,
      server (log st) ("net-port-get-iter", max_records) = Response response ->
      get_child_by_name response "attributes-list" = None ->
      exists st',
        collect server "net_port_info" "net-port-get-iter" "net-port-info"
          (FTuple ["node"; "port"]) st = (Ok tt, st') /\
        sget "net_port_info" (netapp_info st') = Some None) /\
  (forall st,
      collect_before_ifgrp server initial = (Ok tt, st) ->
      sget "net_port_info" (netapp_info st) = Some None ->
      get_all server initial = (Err AttributeError, st)) /\
  (forall st npi,
      sget "net_port_info" (netapp_info st) = Some (Some (TDict npi)) ->
      (forall k, In k (dict_keys npi) ->
         exists pt, port_type_of npi k = Ok pt /\ pt <> VStr "if_group") ->
      get_ifgrp_info server st = (Ok (TDict []), st) /\
      collect_ifgrp server st =
        (Ok tt,
         mkState (sset "net_ifgrp_info" (Some (TDict [])) (netapp_info st)) (log st)) /\
      (forall fact_set st',
          collect_before_ifgrp server initial = (Ok tt, st) ->
          get_all server initial = (Ok fact_set, st') ->
          sget "net_ifgrp_info" fact_set = Some (Some (TDict [])) /\
          In "net_ifgrp_info" (dict_keys fact_set))).
Proof.
  assert (Hnone : forall st,
      sget "net_port_info" (netapp_info st) = Some None ->
      get_ifgrp_info server st = (Err AttributeError, st)).
  { intros st H. unfold get_ifgrp_info, bind, get_info, lift. now rewrite H. }
  split; [exact Hnone|]. split; [|split].
  - intros st response Hr Hc. unfold collect.
    rewrite (bind_ok _ _ _ _ _ (eq_trans
               (get_generic_get_iter_response _ _ _ _ _ _ _ Hr)
               (f_equal (fun o => (match o with
                                   | None => Ok None
                                   | Some l => _
                                   end, _)) Hc))).
    eexists. split; [reflexivity|]. cbn [netapp_info].
    apply (dict_get_set_same _ String.eqb_spec).
  - intros st Hpre Hinfo. rewrite get_all_from_ifgrp.
    rewrite (bind_ok _ _ _ _ _ Hpre). unfold collect_ifgrp.
    apply bind_err. apply bind_err. now apply Hnone.
  - intros st npi Hinfo Htypes.
    assert (Hnil : filter (is_ifgrp npi) (dict_keys npi) = map ifgrp_key []).
    { simpl. apply filter_none.
      intros k I. destruct (Htypes k I) as (pt & Hpt & N).
      unfold is_ifgrp. rewrite Hpt. destruct pt; try reflexivity.
      destruct (String.eqb_spec s "if_group"); [congruence|reflexivity]. }
    assert (Hget : get_ifgrp_info server st = (Ok (TDict []), st)).
    { unfold get_ifgrp_info, bind at 1, get_info.
      unfold bind at 1, lift at 1. rewrite Hinfo.
      unfold bind at 1, lift at 1.
      rewrite (select_ifgrps_filter _ _ []).
      + cbn [app]. rewrite Hnil. simpl. now destruct st.
      + intros k I. destruct (Htypes k I) as (pt & Hpt & _). eauto. }
    pose proof (collect_ifgrp_stores _ _ _ Hget) as Hstore.
    split; [exact Hget|]. split; [exact Hstore|].
    intros fact_set st' Hpre Hrun.
    destruct (ifgrp_category_of_run _ _ _ _ Hpre Hstore Hrun) as [Hcat Hin].
    split; [|exact Hin]. rewrite Hcat. cbn [netapp_info].
    apply (dict_get_set_same _ String.eqb_spec).
Qed.

End CollectorFacts.

(** ** The properties on the session stub *)

Lemma key_manager_failure_downgraded_witness :
  (key_manager_down (log before_key_manager) (key_manager_call, max_records) =
     NaApiError "entry doesn't exist" /\
   call_api key_manager_down key_manager_call max_records before_key_manager =
     (Ok None, sent before_key_manager (key_manager_call, max_records))) /\
  (volume_down (log initial) ("volume-get-iter", max_records) =
     NaApiError "entry doesn't exist" /\
   call_api volume_down "volume-get-iter" max_records initial =
     (Err (FailJson "Error calling API volume-get-iter: entry doesn't exist"),
      sent initial ("volume-get-iter", max_records))) /\
  (collect_before_key_manager key_manager_down initial =
     (Ok tt, before_key_manager) /\
   collect_vserver key_manager_down after_key_manager = (Ok tt, after_vserver) /\
   get_all key_manager_down initial =
     (Ok (netapp_info after_vserver), after_vserver) /\
   sget "security_key_manager_key_info" (netapp_info after_vserver) = Some None) /\
  (log (snd (get_all volume_down initial)) =
     requests_before_volume ++ ("volume-get-iter", max_records) :: [] /\
   exists msg, fst (get_all volume_down initial) = Err (FailJson msg)).
Proof.
  assert (H1 : collect_before_key_manager key_manager_down initial =
               (Ok tt, before_key_manager)) by (vm_compute; reflexivity).
  assert (H2 : key_manager_down (log before_key_manager)
                 (key_manager_call, max_records) =
               NaApiError "entry doesn't exist") by reflexivity.
  assert (H3 : collect_vserver key_manager_down after_key_manager =
               (Ok tt, after_vserver)) by (vm_compute; reflexivity).
  assert (H4 : volume_down (log initial) ("volume-get-iter", max_records) =
               NaApiError "entry doesn't exist") by reflexivity.
  assert (H5 : log (snd (get_all volume_down initial)) =
               requests_before_volume ++ ("volume-get-iter", max_records) :: [])
    by (vm_compute; reflexivity).
  split; [split; [exact H2|]|split; [split; [exact H4|]|split]].
  - exact (proj1 (key_manager_failure_downgraded key_manager_down) _ _ _ _ H2).
  - exact (proj1 (key_manager_failure_downgraded volume_down) _ _ _ _ H4).
  - split; [exact H1|]. split; [exact H3|].
    exact (proj1 (proj2 (key_manager_failure_downgraded key_manager_down))
             before_key_manager _ after_vserver H1 H2 H3).
  - split; [exact H5|].
    apply (proj2 (proj2 (key_manager_failure_downgraded volume_down))
             _ _ requests_before_volume "volume-get-iter" max_records []
             "entry doesn't exist" (surjective_pairing _) H5).
    + reflexivity.
    + discriminate.
Defined.

Lemma failed_call_aborts_run_witness :
  log (snd (get_all volume_down initial)) =
    requests_before_volume ++ ("volume-get-iter", max_records) :: [] /\
  volume_down requests_before_volume ("volume-get-iter", max_records) =
    NaApiError "entry doesn't exist" /\
  "volume-get-iter" <> key_manager_call /\
  fst (get_all volume_down initial) =
    Err (FailJson "Error calling API volume-get-iter: entry doesn't exist").
Proof.
  assert (H1 : log (snd (get_all volume_down initial)) =
               requests_before_volume ++ ("volume-get-iter", max_records) :: [])
    by (vm_compute; reflexivity).
  assert (H2 : volume_down requests_before_volume ("volume-get-iter", max_records) =
               NaApiError "entry doesn't exist") by reflexivity.
  assert (H3 : "volume-get-iter" <> key_manager_call) by discriminate.
  split; [exact H1|]. split; [exact H2|]. split; [exact H3|].
  exact (proj1 (failed_call_aborts_run volume_down _ _ _ _ _ _ _
                  (surjective_pairing _) H1 H2 H3)).
Defined.

(** C5, as stated, fails: after a run in which the key-manager call
    yields no response, the fact set does contain the key
    ['security_key_manager_key_info'], mapped to [None]. *)
Lemma absent_category_key_is_present :
  fst (get_all key_manager_down initial) = Ok (netapp_info after_vserver) /\
  dict_keys (netapp_info after_vserver) =
    ["net_interface_info"; "net_port_info"; "cluster_node_info";
     "security_login_account_info"; "aggregate_info"; "volume_info"; "lun_info";
     "storage_failover_info"; "net_ifgrp_info"; "vserver_motd_info";
     "vserver_login_banner_info"; "security_key_manager_key_info";
     "vserver_info"] /\
  sget "security_key_manager_key_info" (netapp_info after_vserver) = Some None.
Proof. repeat split; vm_compute; reflexivity. Qed.

Lemma absent_response_maps_category_to_none_witness :
  call_api key_manager_down key_manager_call max_records before_key_manager =
    (Ok None, sent before_key_manager (key_manager_call, max_records)) /\
  get_generic_get_iter key_manager_down key_manager_call
    (Some "security-key-manager-key-info") (FTuple ["node"; "key-id"])
    max_records "attributes-list" before_key_manager =
    (Ok None, sent before_key_manager (key_manager_call, max_records)) /\
  (exists st'',
      collect key_manager_down "security_key_manager_key_info" key_manager_call
        "security-key-manager-key-info" (FTuple ["node"; "key-id"])
        before_key_manager = (Ok tt, st'') /\
      sget "security_key_manager_key_info" (netapp_info st'') = Some None) /\
  exists fact_set,
    fst (get_all key_manager_down initial) = Ok fact_set /\
    In "security_key_manager_key_info" (dict_keys fact_set) /\
    sget "security_key_manager_key_info" fact_set = Some None.
Proof.
  assert (H0 : call_api key_manager_down key_manager_call max_records
                 before_key_manager =
               (Ok None, sent before_key_manager (key_manager_call, max_records)))
    by reflexivity.
  split; [exact H0|]. split; [|split].
  - exact (proj1 (absent_response_maps_category_to_none key_manager_down)
             _ _ _ _ _ _ _ H0).
  - exact (proj1 (proj2 (absent_response_maps_category_to_none key_manager_down))
             _ _ _ _ _ _ H0).
  - apply (proj2 (proj2 (absent_response_maps_category_to_none key_manager_down))
             before_key_manager "entry doesn't exist" after_vserver).
    + vm_compute; reflexivity.
    + reflexivity.
    + vm_compute; reflexivity.
Defined.

Lemma later_record_overwrites_witness :
  exists entries,
    get_generic_get_iter repeated_node_server "cluster-node-get-iter"
      (Some "cluster-node-info") (FStr "node-name") max_records "attributes-list"
      initial =
      (Ok (Some (TDict entries)), sent initial ("cluster-node-get-iter", max_records)) /\
    kget (KStr "nodeA") entries =
      Some (VDict [("node_name", VStr "nodeA"); ("node_uptime", VStr "30")]).
Proof.
  destruct (later_record_overwrites repeated_node_server "cluster-node-get-iter"
              (Some "cluster-node-info") (FStr "node-name") max_records
              "attributes-list" initial
              (iter_response [sample_node "nodeA" "10"; sample_node "nodeB" "20";
                              sample_node "nodeA" "30"])
              [sample_node "nodeA" "10"; sample_node "nodeB" "20";
               sample_node "nodeA" "30"]
              eq_refl eq_refl eq_refl)
    as (entries & Hrun & Hlast).
  - repeat constructor; eexists; reflexivity.
  - exists entries. split; [exact Hrun|].
    apply (Hlast [sample_node "nodeA" "10"; sample_node "nodeB" "20"]
             (sample_node "nodeA" "30") []); [reflexivity|reflexivity|constructor].
Defined.

Lemma ifgrp_info_derived_witness :
  sget "net_port_info" (netapp_info ports_fetched) = Some (Some (TDict port_table)) /\
  filter (is_ifgrp port_table) (dict_keys port_table) =
    map ifgrp_key [("nodeA", "a0a")] /\
  get_ifgrp_info (canned_server []) ports_fetched =
    (Ok (TDict canned_ifgrp_table),
     mkState (netapp_info ports_fetched)
       [("net-port-get-iter", max_records);
        ("net-port-ifgrp-get", [("node", "nodeA"); ("ifgrp-name", "a0a")])]) /\
  collect_before_ifgrp (canned_server []) initial = (Ok tt, before_ifgrp_canned) /\
  sget "net_port_info" (netapp_info before_ifgrp_canned) =
    Some (Some (TDict port_table)) /\
  collect_ifgrp (canned_server []) before_ifgrp_canned =
    (Ok tt,
     mkState (sset "net_ifgrp_info" (Some (TDict canned_ifgrp_table))
                (netapp_info before_ifgrp_canned))
       (log before_ifgrp_canned ++
        [("net-port-ifgrp-get", [("node", "nodeA"); ("ifgrp-name", "a0a")])])) /\
  get_all (canned_server []) initial = (Ok canned_facts, canned_final) /\
  sget "net_ifgrp_info" canned_facts = Some (Some (TDict canned_ifgrp_table)).
Proof.
  assert (Htypes : forall k, In k (dict_keys port_table) ->
                             exists pt, port_type_of port_table k = Ok pt).
  { intros k [<-|[<-|[]]]; eexists; reflexivity. }
  assert (Hfree : Forall (fun g => colon_free (fst g) = true /\
                                   colon_free (snd g) = true) [("nodeA", "a0a")]).
  { repeat constructor. }
  assert (Hpre : collect_before_ifgrp (canned_server []) initial =
                 (Ok tt, before_ifgrp_canned)) by (vm_compute; reflexivity).
  assert (Hinfo : sget "net_port_info" (netapp_info before_ifgrp_canned) =
                  Some (Some (TDict port_table))) by (vm_compute; reflexivity).
  assert (Hrun : get_all (canned_server []) initial = (Ok canned_facts, canned_final))
    by (vm_compute; reflexivity).
  destruct (ifgrp_info_derived (canned_server []) ports_fetched port_table
              [("nodeA", "a0a")] [canned_ifgrp_table]
              eq_refl Htypes eq_refl Hfree (conj eq_refl I)) as (H1 & _ & _).
  destruct (ifgrp_info_derived (canned_server []) before_ifgrp_canned port_table
              [("nodeA", "a0a")] [canned_ifgrp_table]
              Hinfo Htypes eq_refl Hfree (conj eq_refl I)) as (_ & H2 & H3).
  split; [reflexivity|]. split; [reflexivity|]. split; [exact H1|].
  split; [exact Hpre|]. split; [exact Hinfo|]. split; [exact H2|].
  split; [exact Hrun|]. exact (H3 _ _ Hpre Hrun).
Defined.

Lemma ifgrp_info_needs_port_table_witness :
  get_ifgrp_info empty_server no_ports_fetched = (Err AttributeError, no_ports_fetched) /\
  (get_child_by_name [("num-records", [])] "attributes-list" = None /\
   exists st',
     collect empty_server "net_port_info" "net-port-get-iter" "net-port-info"
       (FTuple ["node"; "port"]) initial = (Ok tt, st') /\
     sget "net_port_info" (netapp_info st') = Some None) /\
  collect_before_ifgrp empty_server initial = (Ok tt, before_ifgrp_empty) /\
  sget "net_port_info" (netapp_info before_ifgrp_empty) = Some None /\
  get_all empty_server initial = (Err AttributeError, before_ifgrp_empty) /\
  get_ifgrp_info (canned_server []) physical_ports_fetched =
    (Ok (TDict []), physical_ports_fetched) /\
  collect_before_ifgrp physical_only_server initial = (Ok tt, before_ifgrp_physical) /\
  collect_ifgrp physical_only_server before_ifgrp_physical =
    (Ok tt,
     mkState (sset "net_ifgrp_info" (Some (TDict [])) (netapp_info before_ifgrp_physical))
       (log before_ifgrp_physical)) /\
  get_all physical_only_server initial =
    (Ok (netapp_info physical_final), physical_final) /\
  sget "net_ifgrp_info" (netapp_info physical_final) = Some (Some (TDict [])) /\
  In "net_ifgrp_info" (dict_keys (netapp_info physical_final)).
Proof.
  destruct (ifgrp_info_needs_port_table empty_server) as (H1 & H2 & H3 & _).
  destruct (ifgrp_info_needs_port_table (canned_server [])) as (_ & _ & _ & H4).
  destruct (ifgrp_info_needs_port_table physical_only_server) as (_ & _ & _ & H5).
  assert (Hpre : collect_before_ifgrp empty_server initial = (Ok tt, before_ifgrp_empty))
    by (vm_compute; reflexivity).
  assert (Hnone : sget "net_port_info" (netapp_info before_ifgrp_empty) = Some None)
    by (vm_compute; reflexivity).
  assert (Htypes : forall k,
             In k (dict_keys [(KStr "nodeA:e0c",
                               VDict [("node", VStr "nodeA"); ("port", VStr "e0c");
                                      ("port_type", VStr "physical")])]) ->
             exists pt,
               port_type_of [(KStr "nodeA:e0c",
                              VDict [("node", VStr "nodeA"); ("port", VStr "e0c");
                                     ("port_type", VStr "physical")])] k = Ok pt /\
               pt <> VStr "if_group").
  { intros k [<-|[]]. eexists. split; [reflexivity|discriminate]. }
  assert (Hpre' : collect_before_ifgrp physical_only_server initial =
                  (Ok tt, before_ifgrp_physical)) by (vm_compute; reflexivity).
  assert (Hrun : get_all physical_only_server initial =
                 (Ok (netapp_info physical_final), physical_final))
    by (vm_compute; reflexivity).
  destruct (H5 before_ifgrp_physical _ eq_refl Htypes) as (_ & H6 & H7).
  split; [exact (H1 no_ports_fetched eq_refl)|].
  split; [split; [reflexivity|exact (H2 initial _ eq_refl eq_refl)]|].
  split; [exact Hpre|]. split; [exact Hnone|].
  split; [exact (H3 _ Hpre Hnone)|].
  split; [exact (proj1 (H4 physical_ports_fetched _ eq_refl Htypes))|].
  split; [exact Hpre'|]. split; [exact H6|]. split; [exact Hrun|].
  exact (H7 _ _ Hpre' Hrun).
Defined.

(* ===================================================================== *)
(** * Further properties of the module *)
(* ===================================================================== *)

(** ** [convert_keys]: the rewritten record *)

Lemma replace_hyphens_idem name :
  replace_hyphens (replace_hyphens name) = replace_hyphens name.
Proof.
  induction name as [|c t IH]; simpl; [reflexivity|]. rewrite IH. f_equal.
  destruct (Ascii.eqb_spec c hyphen) as [->|N]; [reflexivity|].
  destruct (Ascii.eqb_spec c hyphen); [contradiction|reflexivity].
Qed.

Lemma sset_In {V} k (v : V) k' v' out :
  In (k, v) (sset k' v' out) -> (k = k' /\ v = v') \/ In (k, v) out.
Proof.
  induction out as [|[k0 v0] t IH]; simpl.
  - intros [H|[]]. injection H as <- <-. auto.
  - destruct (String.eqb_spec k' k0) as [->|N]; simpl.
    + intros [H|H]; [injection H as <- <-; auto|auto].
    + intros [H|H]; [auto|]. destruct (IH H); auto.
Qed.

Lemma sset_keys {V} k (v : V) out :
  dict_keys (sset k v out) =
  if in_dec string_dec k (dict_keys out) then dict_keys out else dict_keys out ++ [k].
Proof.
  induction out as [|[k0 v0] t IH]; simpl; [reflexivity|].
  destruct (String.eqb_spec k k0) as [E|N]; simpl.
  - subst k0. destruct (string_dec k k); [reflexivity|contradiction].
  - destruct (string_dec k0 k) as [E|N']; [now elim N|].
    rewrite IH.
    destruct (in_dec string_dec k (dict_keys t)); reflexivity.
Qed.

Lemma sset_NoDup {V} k (v : V) out :
  NoDup (dict_keys out) -> NoDup (dict_keys (sset k v out)).
Proof.
  intros H. rewrite sset_keys.
  destruct (in_dec string_dec k (dict_keys out)) as [I|N]; [exact H|].
  apply NoDup_app; [exact H|repeat constructor; simpl; tauto|].
  intros x Ix [<-|[]]. contradiction.
Qed.

Lemma sset_keys_In {V} k k' (v : V) out :
  In k (dict_keys (sset k' v out)) <-> k = k' \/ In k (dict_keys out).
Proof.
  rewrite sset_keys. destruct (in_dec string_dec k' (dict_keys out)) as [I|N].
  - split; [auto|]. intros [->|H]; assumption.
  - rewrite in_app_iff. simpl. intuition congruence.
Qed.

Lemma sset_length {V} k (v : V) out : length (sset k v out) <= S (length out).
Proof.
  induction out as [|[k0 v0] t IH]; simpl; [lia|].
  destruct (String.eqb k k0); simpl; lia.
Qed.

Lemma convert_items_app l1 l2 out :
  convert_items (l1 ++ l2) out = convert_items l2 (convert_items l1 out).
Proof.
  revert out. induction l1 as [|[k v] t IH]; intros out; simpl; [reflexivity|].
  apply IH.
Qed.

Lemma convert_items_In items : forall out k v,
  In (k, v) (convert_items items out) ->
  In (k, v) out \/
  exists k0 v0, In (k0, v0) items /\ k = replace_hyphens k0 /\ v = convert_keys v0.
Proof.
  induction items as [|[k0 v0] t IH]; intros out k v H; simpl in H; [auto|].
  destruct (IH _ _ _ H) as [I|(k1 & v1 & I & E1 & E2)].
  - apply sset_In in I. destruct I as [[-> ->]|I]; [|auto].
    right. exists k0, v0. simpl. auto.
  - right. exists k1, v1. simpl. auto.
Qed.

Lemma convert_items_NoDup items : forall out,
  NoDup (dict_keys out) -> NoDup (dict_keys (convert_items items out)).
Proof.
  induction items as [|[k v] t IH]; intros out H; simpl; [exact H|].
  apply IH. now apply sset_NoDup.
Qed.

Lemma convert_items_keys_In items : forall out k,
  In k (dict_keys (convert_items items out)) <->
  In k (dict_keys out) \/ exists k0, In k0 (dict_keys items) /\ k = replace_hyphens k0.
Proof.
  induction items as [|[k0 v0] t IH]; intros out k; simpl.
  - split; [auto|]. intros [H|(k1 & [] & _)]. exact H.
  - rewrite IH, sset_keys_In. split.
    + intros [[->|H]|(k1 & I & E)]; eauto 6.
    + intros [H|(k1 & [<-|I] & E)]; eauto 6.
Qed.

Lemma convert_items_length items : forall out,
  length (convert_items items out) <= length out + length items.
Proof.
  induction items as [|[k v] t IH]; intros out; simpl; [lia|].
  specialize (IH (sset (replace_hyphens k) (convert_keys v) out)).
  pose proof (sset_length (replace_hyphens k) (convert_keys v) out). lia.
Qed.

Lemma convert_items_keeps k v items : forall out,
  (forall k', In k' (dict_keys items) -> replace_hyphens k' <> k) ->
  sget k out = Some v -> sget k (convert_items items out) = Some v.
Proof.
  induction items as [|[k0 v0] t IH]; intros out H G; simpl; [exact G|].
  apply IH.
  - intros k' I. apply H. now right.
  - unfold sget, sset. rewrite (dict_get_set_other _ String.eqb_spec); [exact G|].
    intros E. apply (H k0); [now left|]. now symmetry.
Qed.

(** X1: [convert_keys] is idempotent: rewriting an already rewritten
    record gives it back unchanged. *)
Theorem convert_keys_idempotent :
  forall d, convert_keys (convert_keys d) = convert_keys d.
Proof.
  induction d as [| | | |items IH] using value_induction; try reflexivity.
  rewrite convert_keys_eq.
  set (r := convert_items items []).
  assert (Hkeys : map (fun kv => replace_hyphens (fst kv)) r = dict_keys r).
  { apply map_ext_in. intros [k v] I. simpl.
    destruct (convert_items_In _ _ _ _ I) as [[]|(k0 & v0 & _ & -> & _)].
    apply replace_hyphens_idem. }
  assert (Hnd : NoDup (dict_keys r)).
  { apply convert_items_NoDup. constructor. }
  rewrite convert_keys_eq. f_equal.
  rewrite (convert_items_fresh r []); [|simpl; now rewrite Hkeys].
  simpl. rewrite <- (map_id r) at 2. apply map_ext_in.
  intros [k v] I. unfold convert_item. simpl.
  destruct (convert_items_In _ _ _ _ I) as [[]|(k0 & v0 & I0 & -> & ->)].
  rewrite replace_hyphens_idem. f_equal.
  rewrite Forall_forall in IH. exact (IH _ I0).
Qed.

(** X2: the rewritten mapping has no repeated field name, its field
    names are exactly the rewritten names of the original fields, and
    it has at most as many fields as the original. *)
Theorem convert_keys_field_names :
  forall items,
  exists converted,
    convert_keys (VDict items) = VDict converted /\
    NoDup (dict_keys converted) /\
    (forall name, In name (dict_keys converted) <->
                  exists k, In k (dict_keys items) /\ name = replace_hyphens k) /\
    length converted <= length items.
Proof.
  intros items. exists (convert_items items []).
  split; [apply convert_keys_eq|]. split; [|split].
  - apply convert_items_NoDup. constructor.
  - intros name. rewrite convert_items_keys_In. simpl. tauto.
  - apply (convert_items_length items []).
Qed.

(** X3: when several fields are rewritten to the same name, the
    rewritten mapping holds the value of the last of them: for a field
    [k] that no later field collides with, the value under the
    rewritten name is the rewritten value of [k]. *)
Theorem convert_keys_last_field_wins :
  forall pre k v post,
    (forall k', In k' (dict_keys post) -> replace_hyphens k' <> replace_hyphens k) ->
    subscript (convert_keys (VDict (pre ++ (k, v) :: post))) (replace_hyphens k) =
      Ok (convert_keys v).
Proof.
  intros pre k v post H. rewrite convert_keys_eq. unfold subscript.
  rewrite convert_items_app. cbn [convert_items].
  rewrite (convert_items_keeps (replace_hyphens k) (convert_keys v) post);
    [reflexivity|exact H|].
  apply (dict_get_set_same _ String.eqb_spec).
Qed.

Lemma convert_keys_last_field_wins_witness :
  (forall k', In k' (dict_keys (@nil (string * value))) ->
              replace_hyphens k' <> replace_hyphens "a_b") /\
  convert_keys colliding_record =
    VDict [("a_b", VStr "second"); ("c", VStr "kept")] /\
  subscript (convert_keys colliding_record) "a_b" = Ok (VStr "second").
Proof.
  assert (H : forall k', In k' (dict_keys (@nil (string * value))) ->
                         replace_hyphens k' <> replace_hyphens "a_b")
    by (intros k' []).
  split; [exact H|]. split; [reflexivity|].
  exact (convert_keys_last_field_wins
           [("a-b", VStr "first"); ("c", VStr "kept")] "a_b" (VStr "second") [] H).
Defined.

(** ** [_finditem]: what a search can return *)

Lemma finditem_dict_sound key d x :
  finditem_dict key d = x -> x <> VNone ->
  exists m, In m (mappings_preorder d) /\ sget key m = Some x.
Proof.
  revert x.
  induction d as [| | | |items IH] using value_induction; intros x Hx N;
    try (simpl in Hx; congruence).
  rewrite finditem_dict_eq in Hx. cbn [mappings_preorder].
  destruct (sget key items) as [y|] eqn:E.
  - subst y. exists items. split; [now left|exact E].
  - destruct (finditem_children_In _ _ _ Hx N) as (k & sub & I & F).
    rewrite Forall_forall in IH. destruct (IH _ I _ F N) as (m & Im & Hm).
    exists m. split; [|exact Hm]. right.
    apply in_flat_map. exists (k, VDict sub). auto.
Qed.

(** X4: a search never invents a value.  A result other than [None]
    is the value stored under the key in the record itself or in a
    mapping nested in it through mappings; and when no such mapping
    holds the key, the search of a mapping returns [None]. *)
Theorem finditem_sound :
  forall obj key,
    (forall x, _finditem obj key = Ok x -> x <> VNone ->
       exists m, In m (mappings_preorder obj) /\ sget key m = Some x) /\
    (forall items, obj = VDict items -> occurs key obj = false ->
       _finditem obj key = Ok VNone).
Proof.
  intros obj key. split.
  - intros x H N. destruct (finditem_ok_dict _ _ _ H) as (items & ->).
    simpl in H. injection H as H. now apply finditem_dict_sound.
  - intros items -> H. unfold _finditem. f_equal.
    destruct (finditem_dict key (VDict items)) eqn:E; try reflexivity;
      (rewrite (finditem_dict_occurs key (VDict items) _ E) in H;
       [discriminate|discriminate]).
Qed.

Lemma finditem_sound_witness :
  (_finditem sample_volume_attributes "state" = Ok (VStr "online") /\
   exists m, In m (mappings_preorder sample_volume_attributes) /\
             sget "state" m = Some (VStr "online")) /\
  (occurs "size" sample_volume_attributes = false /\
   _finditem sample_volume_attributes "size" = Ok VNone).
Proof.
  split; split.
  - reflexivity.
  - apply (proj1 (finditem_sound sample_volume_attributes "state") _ eq_refl).
    discriminate.
  - reflexivity.
  - exact (proj2 (finditem_sound sample_volume_attributes "size") _ eq_refl eq_refl).
Defined.

(** X5: only a mapping can be searched or keyed.  On any object that
    is not a mapping [_finditem] raises [TypeError] or
    [AttributeError]; so a record whose selected attribute is not a
    mapping makes a step keyed by one field raise, whereas the step
    without key field appends that value as it is. *)
Theorem non_mapping_record :
  forall attribute parsed d f out records,
    select_attribute attribute parsed = Ok d ->
    (forall items, d <> VDict items) ->
    (exists e, (e = TypeError \/ e = AttributeError) /\
               _finditem d f = Err e /\
               add_record attribute (FStr f) out parsed = Err e) /\
    add_record attribute FNone (TList records) parsed = Ok (TList (records ++ [d])).
Proof.
  intros attribute parsed d f out records Hd Hnot.
  assert (H : exists e, (e = TypeError \/ e = AttributeError) /\
                        _finditem d f = Err e).
  { destruct d as [| s | z | l | items]; simpl; eauto.
    - destruct (index 0 f s); eauto.
    - match goal with |- context [if ?b then _ else _] => destruct b end; eauto.
    - now elim (Hnot items). }
  unfold add_record. rewrite Hd. cbn [res_bind]. split.
  - destruct H as (e & He & Hf). exists e. rewrite Hf. auto.
  - destruct d; try reflexivity. now elim (Hnot items).
Qed.

Lemma non_mapping_record_witness :
  select_attribute (Some "lun-info") (VDict [("lun-info", VStr "offline")]) =
    Ok (VStr "offline") /\
  add_record (Some "lun-info") (FStr "path") (TDict [])
    (VDict [("lun-info", VStr "offline")]) = Err AttributeError /\
  add_record (Some "lun-info") FNone (TList [])
    (VDict [("lun-info", VStr "offline")]) = Ok (TList [VStr "offline"]).
Proof.
  assert (Hn : forall items, VStr "offline" <> VDict items) by discriminate.
  destruct (non_mapping_record (Some "lun-info") (VDict [("lun-info", VStr "offline")])
              (VStr "offline") "path" (TDict []) [] eq_refl Hn)
    as ((e & _ & Hf & H2) & H3).
  split; [reflexivity|]. split; [|exact H3].
  cbv in Hf. injection Hf as <-. exact H2.
Defined.

(** ** Composite keys: joined by one step, split by another *)

Lemma split_colon_nonempty s : split_colon s <> [].
Proof.
  destruct s as [|c t]; simpl; [discriminate|].
  destruct (Ascii.eqb c colon); [discriminate|].
  destruct (split_colon t); discriminate.
Qed.

Lemma join_colon_cons s l :
  l <> [] -> join_colon (s :: l) = (s ++ String colon (join_colon l))%string.
Proof. destruct l; [contradiction|reflexivity]. Qed.

Lemma join_split_colon s : join_colon (split_colon s) = s.
Proof.
  induction s as [|c t IH]; [reflexivity|]. simpl.
  destruct (Ascii.eqb_spec c colon) as [->|N].
  - rewrite join_colon_cons by apply split_colon_nonempty. now rewrite IH.
  - destruct (split_colon t) as [|h r] eqn:E; [now elim (split_colon_nonempty t)|].
    destruct r as [|h' r'].
    + simpl in *. now rewrite IH.
    + rewrite join_colon_cons by discriminate.
      rewrite join_colon_cons in IH by discriminate.
      cbn [append]. now rewrite IH.
Qed.

Lemma split_colon_length s : length (split_colon s) = S (colons s).
Proof.
  induction s as [|c t IH]; [reflexivity|]. simpl.
  destruct (Ascii.eqb c colon); simpl; [now rewrite IH|].
  destruct (split_colon t); simpl in *; [discriminate|exact IH].
Qed.

Lemma colons_app a b : colons (a ++ b) = colons a + colons b.
Proof. induction a as [|c t IH]; simpl; [reflexivity|]. rewrite IH. lia. Qed.

Lemma colon_free_colons s : colon_free s = true <-> colons s = 0.
Proof.
  unfold colon_free. induction s as [|c t IH]; simpl; [tauto|].
  destruct (Ascii.eqb c colon); simpl; [split; [discriminate|lia]|exact IH].
Qed.

(** X6: the composite key that [get_generic_get_iter] joins from the
    two fields [node] and [port] is split back by [get_ifgrp_info]
    into the query [node], [ifgrp-name] exactly when neither value
    holds a colon; otherwise the unpacking raises [ValueError].
    Joining the pieces of any split string gives the string back. *)
Theorem composite_key_round_trip :
  (forall s, join_colon (split_colon s) = s) /\
  (forall node port,
      ifgrp_query (KStr (join_colon [node; port])) =
      if colon_free node && colon_free port
      then Ok [("node", node); ("ifgrp-name", port)]
      else Err ValueError).
Proof.
  split; [exact join_split_colon|]. intros node port.
  destruct (colon_free node && colon_free port) eqn:E.
  - apply andb_prop in E as [Hn Hp].
    exact (ifgrp_query_key (node, port) Hn Hp).
  - unfold ifgrp_query.
    pose proof (split_colon_length (join_colon [node; port])) as L.
    cbn [join_colon] in L |- *. rewrite colons_app in L. cbn [colons] in L.
    rewrite Ascii.eqb_refl in L.
    assert (Hc : colons node + colons port <> 0).
    { intros Z. apply andb_false_iff in E.
      destruct E as [E|E]; apply not_true_iff_false in E; apply E;
        apply colon_free_colons; lia. }
    destruct (split_colon (node ++ String colon port))
      as [|a [|b [|c l]]]; simpl in L; try reflexivity; lia.
Qed.

(** ** The tables that [get_generic_get_iter] builds *)

Section DictInvariants.
Context {K V : Type} (eqb : K -> K -> bool).
Hypothesis eqb_spec : forall a b, reflect (a = b) (eqb a b).
Implicit Types (k : K) (v : V) (d : list (K * V)).

Lemma dict_set_In k v k' v' d :
  In (k, v) (dict_set eqb k' v' d) -> (k = k' /\ v = v') \/ In (k, v) d.
Proof.
  induction d as [|[k0 v0] t IH]; simpl.
  - intros [H|[]]. injection H as <- <-. auto.
  - destruct (eqb_spec k' k0) as [E|N]; simpl.
    + subst k0. intros [H|H]; [injection H as <- <-; auto|auto].
    + intros [H|H]; [auto|]. destruct (IH H); auto.
Qed.

Lemma dict_set_keys_In k k' v d :
  In k (dict_keys (dict_set eqb k' v d)) <-> k = k' \/ In k (dict_keys d).
Proof.
  induction d as [|[k0 v0] t IH]; simpl.
  - intuition congruence.
  - destruct (eqb_spec k' k0) as [E|N]; simpl.
    + subst k0. intuition congruence.
    + unfold dict_keys in IH. rewrite IH. intuition congruence.
Qed.

Lemma dict_set_NoDup k v d :
  NoDup (dict_keys d) -> NoDup (dict_keys (dict_set eqb k v d)).
Proof.
  induction d as [|[k0 v0] t IH]; simpl; intros H.
  - repeat constructor. simpl. tauto.
  - destruct (eqb_spec k k0) as [E|N]; simpl; [exact H|].
    inversion H as [|? ? Hk Ht]; subst. constructor; [|now apply IH].
    intros I. apply (dict_set_keys_In k0 k v t) in I.
    destruct I as [E|I]; [congruence|contradiction].
Qed.

Lemma dict_set_length k v d : length (dict_set eqb k v d) <= S (length d).
Proof.
  induction d as [|[k0 v0] t IH]; simpl; [lia|].
  destruct (eqb k k0); simpl; lia.
Qed.

Lemma dict_get_NoDup_In k v d :
  NoDup (dict_keys d) -> In (k, v) d -> dict_get eqb k d = Some v.
Proof.
  induction d as [|[k0 v0] t IH]; simpl; intros H I; [contradiction|].
  inversion H as [|? ? Hk Ht]; subst.
  destruct I as [E|I].
  - injection E as -> ->. destruct (eqb_spec k k); congruence.
  - destruct (eqb_spec k k0) as [E|N]; [|now apply IH].
    subst k0. exfalso. apply Hk. apply in_map_iff. exists (k, v). auto.
Qed.

Lemma dict_update_In k v es : forall d,
  In (k, v) (dict_update eqb d es) -> In (k, v) d \/ In (k, v) es.
Proof.
  unfold dict_update.
  induction es as [|[k0 v0] t IH]; intros d H; simpl in *; [auto|].
  destruct (IH _ H) as [I|I]; [|auto].
  apply dict_set_In in I. destruct I as [[-> ->]|I]; auto.
Qed.

Lemma dict_update_keys_In k es : forall d,
  In k (dict_keys (dict_update eqb d es)) <->
  In k (dict_keys d) \/ In k (dict_keys es).
Proof.
  unfold dict_update.
  induction es as [|[k0 v0] t IH]; intros d; simpl; [tauto|].
  rewrite IH, dict_set_keys_In. simpl. intuition congruence.
Qed.

Lemma dict_update_NoDup es : forall d,
  NoDup (dict_keys d) -> NoDup (dict_keys (dict_update eqb d es)).
Proof.
  unfold dict_update.
  induction es as [|[k0 v0] t IH]; intros d H; simpl; [exact H|].
  apply IH. now apply dict_set_NoDup.
Qed.

Lemma dict_update_length es : forall d,
  length (dict_update eqb d es) <= length d + length es.
Proof.
  unfold dict_update.
  induction es as [|[k0 v0] t IH]; intros d; simpl; [lia|].
  specialize (IH (dict_set eqb k0 v0 d)).
  pose proof (dict_set_length k0 v0 d). lia.
Qed.

End DictInvariants.

Lemma add_records_app attribute field l1 l2 out :
  add_records attribute field (l1 ++ l2) out =
  (out' <~ add_records attribute field l1 out;
   add_records attribute field l2 out').
Proof.
  revert out. induction l1 as [|r t IH]; intros out; [reflexivity|].
  cbn [app add_records]. destruct (add_record attribute field out r); [|reflexivity].
  cbn [res_bind]. apply IH.
Qed.

Lemma add_records_keyed_inv attribute field children : forall out t,
  keyed field = true ->
  add_records attribute field children (TDict out) = Ok t ->
  exists es,
    Forall2 (fun r e => record_entry attribute field r = Ok e) children es /\
    t = TDict (kupdate out es).
Proof.
  induction children as [|r rs IH]; intros out t Hk H.
  - simpl in H. injection H as <-. exists []. split; [constructor|reflexivity].
  - cbn [add_records] in H. rewrite (add_record_keyed _ _ _ _ Hk) in H.
    destruct (record_entry attribute field r) as [e|] eqn:E; [|discriminate].
    cbn [res_bind] in H. destruct (IH _ _ Hk H) as (es & F & ->).
    exists (e :: es). split; [now constructor|reflexivity].
Qed.

Lemma add_records_unkeyed attribute children ds : forall acc,
  Forall2 (fun r d => select_attribute attribute r = Ok d) children ds ->
  add_records attribute FNone children (TList acc) =
  Ok (TList (acc ++ map convert_keys ds)).
Proof.
  intros acc H. revert acc. induction H as [|r d rs ds' Hd Hrest IH]; intros acc.
  - simpl. now rewrite app_nil_r.
  - cbn [add_records]. unfold add_record. rewrite Hd. cbn [res_bind].
    rewrite IH. simpl. now rewrite <- app_assoc.
Qed.

Lemma get_generic_get_iter_log_error server call attribute field q children st detail :
  server (log st) (call, q) = NaApiError detail ->
  get_generic_get_iter server call attribute field q children st =
  (if String.eqb call key_manager_call
   then Ok None
   else Err (FailJson (error_message call detail)), sent st (call, q)).
Proof.
  intros H. pose proof (call_api_error server _ _ _ _ H) as Hc.
  destruct (String.eqb call key_manager_call).
  - now apply get_generic_get_iter_absent.
  - now apply get_generic_get_iter_error.
Qed.

Section MoreCollectorFacts.
Variable server : list request -> request -> api_result.

(** X7: without a key field, [get_generic_get_iter] returns the
    normalized records as a plain sequence, one per child of the
    container and in the order of the response; nothing is merged or
    dropped. *)
Theorem unkeyed_response_is_sequence :
  forall call attribute q container st response children ds,
    server (log st) (call, q) = Response response ->
    get_child_by_name response container = Some children ->
    Forall2 (fun r d => select_attribute attribute r = Ok d) children ds ->
    get_generic_get_iter server call attribute FNone q container st =
      (Ok (Some (TList (map convert_keys ds))), sent st (call, q)) /\
    length (map convert_keys ds) = length children.
Proof.
  intros call attribute q container st response children ds Hr Hc Hds. split.
  - rewrite (get_generic_get_iter_response _ _ _ _ _ _ _ _ Hr), Hc.
    now rewrite (add_records_unkeyed _ _ _ [] Hds).
  - rewrite length_map. symmetry. exact (Forall2_length Hds).
Qed.

(** X8: a table returned for a keyed descriptor has no repeated key,
    each of its entries is the key and normalized record of some child
    of the container, the key of every child is in the table, and the
    table has at most as many entries as the container has children. *)
Theorem table_entries_from_records :
  forall call attribute field q container st t st',
    keyed field = true ->
    get_generic_get_iter server call attribute field q container st =
      (Ok (Some t), st') ->
    exists entries response children,
      t = TDict entries /\
      server (log st) (call, q) = Response response /\
      get_child_by_name response container = Some children /\
      NoDup (dict_keys entries) /\
      (forall k v, In (k, v) entries ->
         exists r, In r children /\ record_entry attribute field r = Ok (k, v)) /\
      (forall r, In r children ->
         exists k v, record_entry attribute field r = Ok (k, v) /\
                     In k (dict_keys entries)) /\
      length entries <= length children.
Proof.
  intros call attribute field q container st t st' Hk Hrun.
  destruct (server (log st) (call, q)) as [response|detail] eqn:Hr.
  - rewrite (get_generic_get_iter_response _ _ _ _ _ _ _ _ Hr) in Hrun.
    destruct (get_child_by_name response container) as [children|] eqn:Hc;
      [|discriminate].
    assert (Hadd : add_records attribute field children (TDict []) = Ok t).
    { destruct field; [discriminate| |];
        (destruct (add_records _ _ children (TDict [])); cbn [res_bind] in Hrun;
         [injection Hrun as <- _; reflexivity|discriminate]). }
    destruct (add_records_keyed_inv _ _ _ _ _ Hk Hadd) as (es & F & ->).
    exists (kupdate [] es), response, children.
    split; [reflexivity|]. split; [reflexivity|]. split; [exact Hc|].
    split; [|split; [|split]].
    + apply (dict_update_NoDup _ hkey_eqb_spec). constructor.
    + intros k v I. apply (dict_update_In _ hkey_eqb_spec) in I.
      destruct I as [[]|I].
      clear - F I. induction F as [|r e rs es' He Hrest IH]; [contradiction|].
      destruct I as [<-|I]; [exists r; split; [now left|exact He]|].
      destruct (IH I) as (r' & I' & H'). exists r'. split; [now right|exact H'].
    + intros r I.
      assert (He : exists e, record_entry attribute field r = Ok e /\ In e es).
      { clear - F I. induction F as [|r0 e rs es' He Hrest IH]; [contradiction|].
        destruct I as [<-|I]; [exists e; split; [exact He|now left]|].
        destruct (IH I) as (e' & H' & I'). exists e'. split; [exact H'|now right]. }
      destruct He as ([k v] & He & Ie). exists k, v. split; [exact He|].
      apply (dict_update_keys_In _ hkey_eqb_spec). right.
      apply in_map_iff. exists (k, v). auto.
    + pose proof (dict_update_length hkey_eqb es (@nil (hkey * value))) as L.
      rewrite (Forall2_length F). exact L.
  - rewrite (get_generic_get_iter_log_error _ _ _ _ _ _ _ _ Hr) in Hrun.
    destruct (String.eqb call key_manager_call); discriminate.
Qed.

(** X9: the first child of the container whose key or attribute
    cannot be derived fails the whole call with its own error, whatever
    the earlier children were: no partial table is returned.  The
    request has been sent all the same. *)
Theorem first_bad_record_fails_call :
  forall call attribute field q container st response pre r post e,
    keyed field = true ->
    server (log st) (call, q) = Response response ->
    get_child_by_name response container = Some (pre ++ r :: post) ->
    Forall (fun r' => exists e', record_entry attribute field r' = Ok e') pre ->
    record_entry attribute field r = Err e ->
    get_generic_get_iter server call attribute field q container st =
      (Err e, sent st (call, q)).
Proof.
  intros call attribute field q container st response pre r post e
         Hk Hr Hc Hpre Hbad.
  rewrite (get_generic_get_iter_response _ _ _ _ _ _ _ _ Hr), Hc.
  destruct (add_records_keyed attribute field pre Hk Hpre) as (es & _ & Hrun).
  assert (Hadd : add_records attribute field (pre ++ r :: post) (TDict []) = Err e).
  { rewrite add_records_app, Hrun. cbn [res_bind add_records].
    rewrite (add_record_keyed _ _ _ _ Hk), Hbad. reflexivity. }
  destruct field; [discriminate| |]; now rewrite Hadd.
Qed.

(** X10: whatever the session answers and whether the call returns or
    raises, [get_generic_get_iter] sends exactly one request, the call
    with its query, and does not touch [netapp_info]. *)
Theorem get_generic_get_iter_sends_one_request :
  forall call attribute field q container st,
    netapp_info (snd (get_generic_get_iter server call attribute field q container st))
      = netapp_info st /\
    log (snd (get_generic_get_iter server call attribute field q container st))
      = log st ++ [(call, q)].
Proof.
  intros. rewrite get_generic_get_iter_log. split; reflexivity.
Qed.

(** *** The interface-group step *)

Lemma state_eta st : mkState (netapp_info st) (log st ++ []) = st.
Proof. destruct st. simpl. now rewrite app_nil_r. Qed.

Lemma merge_ifgrps_frame ifgrps : forall acc st,
  exists reqs,
    snd (merge_ifgrps server ifgrps acc st) =
      mkState (netapp_info st) (log st ++ reqs) /\
    Forall (fun rq => fst rq = "net-port-ifgrp-get") reqs /\
    length reqs <= length ifgrps.
Proof.
  induction ifgrps as [|g gs IH]; intros acc st.
  - exists []. simpl. rewrite state_eta. split; [reflexivity|]. split; [constructor|lia].
  - cbn [merge_ifgrps]. unfold bind at 1, lift at 1.
    destruct (ifgrp_query g) as [q|e].
    + unfold bind.
      pose proof (get_generic_get_iter_log server "net-port-ifgrp-get"
                    (Some "net-ifgrp-info") (FTuple ["node"; "ifgrp-name"]) q
                    "attributes" st) as Hlog.
      destruct (get_generic_get_iter server "net-port-ifgrp-get"
                  (Some "net-ifgrp-info") (FTuple ["node"; "ifgrp-name"]) q
                  "attributes" st) as [[[[l|d]|]|e] st1];
        cbn [snd] in Hlog; subst st1.
      * exists [("net-port-ifgrp-get", q)]. simpl.
        split; [reflexivity|]. split; [repeat constructor|lia].
      * destruct (IH (kupdate acc d) (sent st ("net-port-ifgrp-get", q)))
          as (reqs & -> & Hreqs & Hlen).
        exists (("net-port-ifgrp-get", q) :: reqs). cbn [sent netapp_info log].
        rewrite <- app_assoc. split; [reflexivity|].
        split; [now constructor|simpl; lia].
      * exists [("net-port-ifgrp-get", q)]. simpl.
        split; [reflexivity|]. split; [repeat constructor|lia].
      * exists [("net-port-ifgrp-get", q)]. simpl.
        split; [reflexivity|]. split; [repeat constructor|lia].
    + exists []. simpl. rewrite state_eta.
      split; [reflexivity|]. split; [constructor|lia].
Qed.

Lemma select_ifgrps_length npi interfaces : forall ifgrps selected,
  select_ifgrps npi interfaces ifgrps = Ok selected ->
  length selected <= length ifgrps + length interfaces.
Proof.
  induction interfaces as [|k t IH]; intros ifgrps selected H; simpl in H.
  - injection H as <-. lia.
  - destruct (kget k npi) as [rec|]; [|discriminate]. cbn [res_bind] in H.
    destruct (subscript rec "port_type") as [pt|]; [|discriminate].
    cbn [res_bind] in H.
    assert (Hskip : select_ifgrps npi t ifgrps = Ok selected ->
                    length selected <= length ifgrps + S (length t)).
    { intros G. apply IH in G. lia. }
    destruct pt; try (now apply Hskip).
    destruct (String.eqb s "if_group"); [|now apply Hskip].
    apply IH in H. rewrite length_app in H. simpl in *. lia.
Qed.

(** X11: [get_ifgrp_info] only reads [netapp_info]: whether it returns
    or raises, the fact set is as before, and the requests it has sent
    are all ['net-port-ifgrp-get'] lookups, at most one per entry of
    the network-port table. *)
Theorem get_ifgrp_info_frame :
  forall st,
  exists reqs,
    snd (get_ifgrp_info server st) = mkState (netapp_info st) (log st ++ reqs) /\
    Forall (fun rq => fst rq = "net-port-ifgrp-get") reqs /\
    (forall npi, sget "net_port_info" (netapp_info st) = Some (Some (TDict npi)) ->
                 length reqs <= length npi).
Proof.
  intros st.
  assert (Hnone : exists reqs,
             st = mkState (netapp_info st) (log st ++ reqs) /\
             Forall (fun rq => fst rq = "net-port-ifgrp-get") reqs /\
             length reqs = 0).
  { exists []. rewrite state_eta. repeat split. constructor. }
  unfold get_ifgrp_info, bind at 1, get_info. unfold bind at 1, lift at 1.
  destruct (sget "net_port_info" (netapp_info st)) as [[[l|npi]|]|] eqn:E;
    try (destruct Hnone as (reqs & H1 & H2 & H3); exists reqs; cbn [snd];
         split; [exact H1|]; split; [exact H2|]; intros npi' H; discriminate).
  unfold bind at 1, lift at 1.
  destruct (select_ifgrps npi (dict_keys npi) []) as [ifgrps|e] eqn:Es.
  - apply select_ifgrps_length in Es. unfold dict_keys in Es.
    rewrite length_map in Es. simpl in Es.
    destruct (merge_ifgrps_frame ifgrps [] st) as (reqs & Hs & Hreqs & Hlen).
    exists reqs. unfold bind.
    destruct (merge_ifgrps server ifgrps [] st) as [[d|e] st1]; cbn [snd] in *;
      (split; [exact Hs|]; split; [exact Hreqs|];
       intros npi' H; injection H as <-; lia).
  - destruct Hnone as (reqs & H1 & H2 & H3). exists reqs. cbn [snd].
    split; [exact H1|]. split; [exact H2|]. intros npi' _. lia.
Qed.

Lemma merge_ifgrps_app l1 l2 acc st :
  merge_ifgrps server (l1 ++ l2) acc st =
  bind (merge_ifgrps server l1 acc) (fun acc' => merge_ifgrps server l2 acc') st.
Proof.
  revert acc st. induction l1 as [|g gs IH]; intros acc st; [reflexivity|].
  cbn [app merge_ifgrps]. unfold bind, lift in *.
  destruct (ifgrp_query g) as [q|e]; [|reflexivity].
  destruct (get_generic_get_iter server "net-port-ifgrp-get" (Some "net-ifgrp-info")
              (FTuple ["node"; "ifgrp-name"]) q "attributes" st)
    as [[[[l|d]|]|e] st1]; try reflexivity.
  apply IH.
Qed.

Lemma get_ifgrp_info_after_lookups st npi groups rest tables :
  sget "net_port_info" (netapp_info st) = Some (Some (TDict npi)) ->
  (forall k, In k (dict_keys npi) -> exists pt, port_type_of npi k = Ok pt) ->
  filter (is_ifgrp npi) (dict_keys npi) = map ifgrp_key groups ++ rest ->
  Forall (fun g => colon_free (fst g) = true /\ colon_free (snd g) = true) groups ->
  lookups_return server st groups tables ->
  get_ifgrp_info server st =
  bind (merge_ifgrps server rest (fold_left kupdate tables []))
       (fun net_ifgrp_info => ret (TDict net_ifgrp_info))
       (mkState (netapp_info st) (log st ++ map ifgrp_request groups)).
Proof.
  intros Hinfo Htypes Hgroups Hfree Hret.
  unfold get_ifgrp_info, bind at 1, get_info.
  unfold bind at 1, lift at 1. rewrite Hinfo.
  unfold bind at 1, lift at 1.
  rewrite (select_ifgrps_filter _ _ [] Htypes). cbn [app]. rewrite Hgroups.
  unfold bind at 1. rewrite merge_ifgrps_app. unfold bind at 1.
  rewrite (merge_ifgrps_run server _ _ _ _ Hfree Hret). reflexivity.
Qed.

(** X12: an interface-group key that does not split at the colon into
    exactly two pieces stops [get_ifgrp_info] with [ValueError]: the
    groups before it have been looked up, no request is sent for it or
    for the groups after it, and no table is returned. *)
Theorem ifgrp_key_not_two_pieces :
  forall st npi groups bad rest tables,
    sget "net_port_info" (netapp_info st) = Some (Some (TDict npi)) ->
    (forall k, In k (dict_keys npi) -> exists pt, port_type_of npi k = Ok pt) ->
    filter (is_ifgrp npi) (dict_keys npi) = map ifgrp_key groups ++ KStr bad :: rest ->
    Forall (fun g => colon_free (fst g) = true /\ colon_free (snd g) = true) groups ->
    lookups_return server st groups tables ->
    colons bad <> 1 ->
    get_ifgrp_info server st =
      (Err ValueError,
       mkState (netapp_info st) (log st ++ map ifgrp_request groups)).
Proof.
  intros st npi groups bad rest tables Hinfo Htypes Hgroups Hfree Hret Hbad.
  rewrite (get_ifgrp_info_after_lookups _ _ _ _ _ Hinfo Htypes Hgroups Hfree Hret).
  assert (Hq : ifgrp_query (KStr bad) = Err ValueError).
  { unfold ifgrp_query. pose proof (split_colon_length bad) as L.
    destruct (split_colon bad) as [|a [|b [|c l]]]; simpl in L;
      try reflexivity. lia. }
  unfold bind at 1. cbn [merge_ifgrps]. unfold bind at 1, lift at 1.
  rewrite Hq. reflexivity.
Qed.

(** X13: an interface-group lookup that is answered without the
    ['attributes'] container stops [get_ifgrp_info] with [TypeError]
    (the merge of [None]), right after the request of that group. *)
Theorem ifgrp_lookup_without_container :
  forall st npi groups g rest tables response,
    sget "net_port_info" (netapp_info st) = Some (Some (TDict npi)) ->
    (forall k, In k (dict_keys npi) -> exists pt, port_type_of npi k = Ok pt) ->
    filter (is_ifgrp npi) (dict_keys npi) =
      map ifgrp_key groups ++ ifgrp_key g :: rest ->
    Forall (fun g' => colon_free (fst g') = true /\ colon_free (snd g') = true)
      (groups ++ [g]) ->
    lookups_return server st groups tables ->
    server (log st ++ map ifgrp_request groups) (ifgrp_request g) = Response response ->
    get_child_by_name response "attributes" = None ->
    get_ifgrp_info server st =
      (Err TypeError,
       mkState (netapp_info st) (log st ++ map ifgrp_request (groups ++ [g]))).
Proof.
  intros st npi groups g rest tables response
         Hinfo Htypes Hgroups Hfree Hret Hresp Hcont.
  apply Forall_app in Hfree. destruct Hfree as [Hfree Hg].
  inversion Hg as [|? ? [Hn Hp] _]; subst.
  rewrite (get_ifgrp_info_after_lookups _ _ _ _ _ Hinfo Htypes Hgroups Hfree Hret).
  unfold bind at 1. cbn [merge_ifgrps]. unfold bind at 1, lift at 1.
  rewrite (ifgrp_query_key _ Hn Hp). unfold bind at 1.
  rewrite (get_generic_get_iter_response server "net-port-ifgrp-get" _ _ _ _
             (mkState (netapp_info st) (log st ++ map ifgrp_request groups))
             response Hresp).
  rewrite Hcont. unfold lift. cbn [sent netapp_info log].
  rewrite map_app, app_assoc. reflexivity.
Qed.

(** *** A run of [get_all] that returns *)

Lemma bind_inv {A B} (m : M A) (f : A -> M B) st b st' :
  bind m f st = (Ok b, st') ->
  exists a st1, m st = (Ok a, st1) /\ f a st1 = (Ok b, st').
Proof.
  unfold bind. destruct (m st) as [[a|e] st1]; [|discriminate].
  intros H. exists a, st1. auto.
Qed.

Lemma keyed_result_is_dict call attribute field q container st t st' :
  keyed field = true ->
  get_generic_get_iter server call attribute field q container st = (Ok t, st') ->
  none_or_keyed t.
Proof.
  intros Hk Hrun. destruct t as [t|]; [|now left]. right.
  destruct (server (log st) (call, q)) as [response|detail] eqn:Hr.
  - rewrite (get_generic_get_iter_response _ _ _ _ _ _ _ _ Hr) in Hrun.
    destruct (get_child_by_name response container) as [children|];
      [|discriminate].
    assert (Hadd : add_records attribute field children (TDict []) = Ok t).
    { destruct field; [discriminate| |];
        (destruct (add_records _ _ children (TDict [])); cbn [res_bind] in Hrun;
         [injection Hrun as <- _; reflexivity|discriminate]). }
    destruct (add_records_keyed_inv _ _ _ _ _ Hk Hadd) as (es & _ & ->). eauto.
  - rewrite (get_generic_get_iter_log_error _ _ _ _ _ _ _ _ Hr) in Hrun.
    destruct (String.eqb call key_manager_call); discriminate.
Qed.

Lemma collect_keyed_inv name call attribute field st st' :
  keyed field = true ->
  collect server name call attribute field st = (Ok tt, st') ->
  exists t, none_or_keyed t /\
            st' = mkState (sset name t (netapp_info st))
                    (log st ++ [(call, max_records)]).
Proof.
  intros Hk H. unfold collect in H.
  apply bind_inv in H. destruct H as (t & st1 & Hrun & Hset).
  pose proof (get_generic_get_iter_log server call (Some attribute) field max_records
                "attributes-list" st) as Hlog.
  rewrite Hrun in Hlog. cbn [snd] in Hlog. subst st1.
  exists t. split; [exact (keyed_result_is_dict _ _ _ _ _ _ _ _ Hk Hrun)|].
  unfold set_info in Hset. now injection Hset as <-.
Qed.

Lemma collect_ifgrp_inv st st' :
  collect_ifgrp server st = (Ok tt, st') ->
  exists npi d reqs,
    sget "net_port_info" (netapp_info st) = Some (Some (TDict npi)) /\
    st' = mkState (sset "net_ifgrp_info" (Some (TDict d)) (netapp_info st))
            (log st ++ reqs) /\
    Forall (fun rq => fst rq = "net-port-ifgrp-get") reqs /\
    length reqs <= length npi.
Proof.
  intros H. unfold collect_ifgrp in H.
  apply bind_inv in H. destruct H as (t & st1 & Hrun & Hset).
  unfold get_ifgrp_info, bind at 1, get_info in Hrun.
  unfold bind at 1, lift at 1 in Hrun.
  destruct (sget "net_port_info" (netapp_info st)) as [[[l|npi]|]|];
    try discriminate.
  unfold bind at 1, lift at 1 in Hrun.
  destruct (select_ifgrps npi (dict_keys npi) []) as [ifgrps|e] eqn:Es;
    [|discriminate].
  apply select_ifgrps_length in Es. unfold dict_keys in Es.
  rewrite length_map in Es. simpl in Es.
  destruct (merge_ifgrps_frame ifgrps [] st) as (reqs & Hs & Hreqs & Hlen).
  unfold bind in Hrun.
  destruct (merge_ifgrps server ifgrps [] st) as [[d|e] st2]; [|discriminate].
  cbn [snd] in Hs. unfold ret in Hrun. injection Hrun as <- <-. subst st2.
  exists npi, d, reqs. split; [reflexivity|].
  unfold set_info in Hset. injection Hset as <-. cbn [netapp_info log].
  split; [reflexivity|]. split; [exact Hreqs|lia].
Qed.

Ltac invert_collect H :=
  let t := fresh "t" in
  let Ht := fresh "Ht" in
  let Hs := fresh "Hs" in
  apply bind_inv in H; destruct H as ([] & ? & Hs & H);
  apply collect_keyed_inv in Hs; [|reflexivity];
  destruct Hs as (t & Ht & ->).

Lemma get_all_ok_inv fact_set st' :
  get_all server initial = (Ok fact_set, st') ->
  exists t1 npi t3 t4 t5 t6 t7 t8 ifgrp t10 t11 t12 t13 reqs,
    fact_set =
      [("net_interface_info", t1); ("net_port_info", Some (TDict npi));
       ("cluster_node_info", t3); ("security_login_account_info", t4);
       ("aggregate_info", t5); ("volume_info", t6); ("lun_info", t7);
       ("storage_failover_info", t8); ("net_ifgrp_info", Some (TDict ifgrp));
       ("vserver_motd_info", t10); ("vserver_login_banner_info", t11);
       ("security_key_manager_key_info", t12); ("vserver_info", t13)] /\
    Forall none_or_keyed [t1; t3; t4; t5; t6; t7; t8; t10; t11; t12; t13] /\
    st' = mkState fact_set (requests_before_ifgrp ++ reqs ++ requests_after_ifgrp) /\
    Forall (fun rq => fst rq = "net-port-ifgrp-get") reqs /\
    length reqs <= length npi.
Proof.
  intros H. unfold get_all, collect_key_manager, collect_vserver in H.
  do 8 invert_collect H.
  apply bind_inv in H. destruct H as ([] & ? & Hs & H).
  apply collect_ifgrp_inv in Hs.
  destruct Hs as (npi & d & reqs & Hnpi & -> & Hreqs & Hlen).
  do 4 invert_collect H.
  unfold get_info in H. injection H as <- <-.
  cbn in Hnpi. injection Hnpi as ->.
  exists t, npi, t1, t2, t3, t4, t5, t6, d, t7, t8, t9, t10, reqs.
  split; [reflexivity|].
  split; [repeat (apply Forall_cons; [assumption|]); apply Forall_nil|].
  split; [|split; [exact Hreqs|exact Hlen]].
  cbn. f_equal. unfold requests_before_ifgrp, requests_after_ifgrp, max_records.
  repeat rewrite <- app_assoc. reflexivity.
Qed.

Lemma get_all_keys fact_set st' :
  get_all server initial = (Ok fact_set, st') ->
  dict_keys fact_set = category_names /\ netapp_info st' = fact_set.
Proof.
  intros H.
  destruct (get_all_ok_inv _ _ H)
    as (t1 & npi & t3 & t4 & t5 & t6 & t7 & t8 & ifgrp & t10 & t11 & t12 & t13
        & reqs & -> & _ & -> & _).
  split; reflexivity.
Qed.

(** X14: a run of [get_all] that returns, returns the thirteen
    category names, each once and in the order of the assignments,
    whatever the cluster answered. *)
Theorem successful_run_categories :
  forall fact_set st',
    get_all server initial = (Ok fact_set, st') ->
    dict_keys fact_set = category_names /\ netapp_info st' = fact_set.
Proof.
  intros fact_set st' H. now apply get_all_keys.
Qed.

(** X15: in the fact set of a run that returns, no category is a
    plain sequence: each one is [None] or a keyed table, and the
    network-port and interface-group categories are always keyed
    tables. *)
Theorem successful_run_tables :
  forall fact_set st',
    get_all server initial = (Ok fact_set, st') ->
    (forall name t, In (name, t) fact_set -> none_or_keyed t) /\
    (exists npi, sget "net_port_info" fact_set = Some (Some (TDict npi))) /\
    (exists ifgrp, sget "net_ifgrp_info" fact_set = Some (Some (TDict ifgrp))).
Proof.
  intros fact_set st' H.
  destruct (get_all_ok_inv _ _ H)
    as (t1 & npi & t3 & t4 & t5 & t6 & t7 & t8 & ifgrp & t10 & t11 & t12 & t13
        & reqs & -> & Hall & _).
  split; [|split; [exists npi; reflexivity|exists ifgrp; reflexivity]].
  intros name t I. rewrite Forall_forall in Hall. simpl in I.
  repeat (destruct I as [I|I];
          [injection I as <- <-;
           first [right; eexists; reflexivity | apply Hall; simpl; tauto]|]).
  contradiction.
Qed.

(** X16: a run of [get_all] that returns has sent the eight iterator
    calls from ['net-interface-get-iter'] to ['cf-get-iter'], then the
    interface-group lookups (at most one per network port), then the
    four calls from ['vserver-motd-get-iter'] to ['vserver-get-iter'],
    each iterator call with [max-records = 1024], and nothing else. *)
Theorem successful_run_requests :
  forall fact_set st',
    get_all server initial = (Ok fact_set, st') ->
    exists lookups npi,
      log st' = requests_before_ifgrp ++ lookups ++ requests_after_ifgrp /\
      Forall (fun rq => fst rq = "net-port-ifgrp-get") lookups /\
      sget "net_port_info" fact_set = Some (Some (TDict npi)) /\
      length lookups <= length npi.
Proof.
  intros fact_set st' H.
  destruct (get_all_ok_inv _ _ H)
    as (t1 & npi & t3 & t4 & t5 & t6 & t7 & t8 & ifgrp & t10 & t11 & t12 & t13
        & reqs & -> & _ & -> & Hreqs & Hlen).
  exists reqs, npi. repeat split; assumption.
Qed.

End MoreCollectorFacts.

(** ** From the normalized table to the interface-group test *)

Lemma record_entry_inv attribute field r k v :
  record_entry attribute field r = Ok (k, v) ->
  exists d, select_attribute attribute r = Ok d /\ v = convert_keys d.
Proof.
  unfold record_entry. destruct (select_attribute attribute r) as [d|]; [|discriminate].
  cbn [res_bind]. destruct (derived_key field d); [|discriminate].
  cbn [res_bind]. intros H. injection H as _ <-. eauto.
Qed.

(** X17: field names survive normalization in rewritten form, so the
    type test of [get_ifgrp_info] finds its field.  When every record
    of the response carries the field ['port-type'], the table built
    from it has ['port_type'] in every entry, and the first loop of
    [get_ifgrp_info] selects the interface groups without raising. *)
Theorem port_type_survives_normalization :
  forall attribute field children entries,
    keyed field = true ->
    add_records attribute field children (TDict []) = Ok (TDict entries) ->
    (forall r, In r children ->
       exists items, select_attribute attribute r = Ok (VDict items) /\
                     In "port-type" (dict_keys items)) ->
    (forall k, In k (dict_keys entries) -> exists pt, port_type_of entries k = Ok pt) /\
    select_ifgrps entries (dict_keys entries) [] =
      Ok (filter (is_ifgrp entries) (dict_keys entries)).
Proof.
  intros attribute field children entries Hk Hadd Hrec.
  assert (Hpt : forall k, In k (dict_keys entries) ->
                          exists pt, port_type_of entries k = Ok pt).
  { destruct (add_records_keyed_inv _ _ _ _ _ Hk Hadd) as (es & F & E).
    injection E as ->. intros k I.
    apply in_map_iff in I. destruct I as ([k' v] & E & I). simpl in E. subst k'.
    assert (Hnd : NoDup (dict_keys (kupdate [] es))).
    { apply (dict_update_NoDup _ hkey_eqb_spec). constructor. }
    unfold port_type_of, kget.
    rewrite (dict_get_NoDup_In _ hkey_eqb_spec _ _ _ Hnd I).
    apply (dict_update_In _ hkey_eqb_spec) in I. destruct I as [[]|I].
    assert (Hr : exists r, In r children /\ record_entry attribute field r = Ok (k, v)).
    { clear - F I. induction F as [|r e rs es' He Hrest IH]; [contradiction|].
      destruct I as [<-|I]; [exists r; split; [now left|exact He]|].
      destruct (IH I) as (r' & I' & H'). exists r'. split; [now right|exact H']. }
    destruct Hr as (r & Ir & Hr).
    destruct (record_entry_inv _ _ _ _ _ Hr) as (d & Hd & ->).
    destruct (Hrec r Ir) as (items & Hitems & Hport).
    rewrite Hitems in Hd. injection Hd as <-.
    rewrite convert_keys_eq. unfold subscript.
    destruct (sget "port_type" (convert_items items [])) as [pt|] eqn:G; [eauto|].
    exfalso. apply (dict_get_None_keys _ String.eqb_spec) in G. apply G.
    apply convert_items_keys_In. right. exists "port-type". auto. }
  split; [exact Hpt|]. now rewrite (select_ifgrps_filter _ _ [] Hpt).
Qed.

(** ** [main] *)

Lemma check_state_accepted invalid given :
  given = None \/ given = Some "info" -> check_state invalid given = Ok "info".
Proof. intros [-> | ->]; reflexivity. Qed.

Lemma check_state_inv invalid given s :
  check_state invalid given = Ok s ->
  s = "info" /\ (given = None \/ given = Some "info").
Proof.
  destruct given as [v|]; simpl.
  - rewrite orb_false_r. destruct (String.eqb_spec v "info") as [->|N].
    + intros H. injection H as <-. auto.
    + discriminate.
  - intros H. injection H as <-. auto.
Qed.

(** X18: [main] fails before the collector sends anything when its
    setup is not in order.  A [state] other than ['info'] ends it in
    the argument check, whatever libraries are present; for [state]
    left out or ['info'], a missing library ends it in [fail_json]
    with the message of the first missing one, [xmltodict] before
    [json] before the NetApp library. *)
Theorem missing_library_fails_before_any_call :
  forall env invalid server given,
    (forall v, given = Some v -> v <> "info" ->
       main env invalid server given = (Err (FailJson (invalid v)), initial)) /\
    (given = None \/ given = Some "info" ->
     HAS_XMLTODICT env && HAS_JSON env && HAS_NETAPP_LIB env = false ->
     main env invalid server given =
       (Err (FailJson
               (if negb (HAS_XMLTODICT env) then "xmltodict missing"
                else if negb (HAS_JSON env) then "json missing"
                else "the python NetApp-Lib module is required")),
        initial)).
Proof.
  intros [x j n] invalid server given. split.
  - intros v -> N. unfold main, check_state. cbn [existsb state_choices].
    rewrite orb_false_r. destruct (String.eqb_spec v "info"); [contradiction|].
    reflexivity.
  - intros Hs H. unfold main. rewrite (check_state_accepted _ _ Hs).
    unfold construct. simpl in *.
    destruct x, j, n; try discriminate; reflexivity.
Qed.

(** X19: [main] is read-only in what it reports.  For [state] left out
    or ['info'] and the three libraries present it returns exactly when
    [get_all] does, and a failure of [get_all] is its failure.  Every
    result of [main] reports [changed] false and the state ['info'],
    comes from such a setup, and carries under [ontap_facts] the fact
    set that [get_all] returned, with its thirteen categories. *)
Theorem main_reports_unchanged :
  forall env invalid server given,
    (given = None \/ given = Some "info" ->
     HAS_XMLTODICT env && HAS_JSON env && HAS_NETAPP_LIB env = true ->
     (forall g st, get_all server initial = (Ok g, st) ->
        main env invalid server given = (Ok (mkExit "info" false g), st)) /\
     (forall e st, get_all server initial = (Err e, st) ->
        main env invalid server given = (Err e, st))) /\
    (forall r st,
        main env invalid server given = (Ok r, st) ->
        exit_changed r = false /\ exit_state r = "info" /\
        (given = None \/ given = Some "info") /\
        HAS_XMLTODICT env && HAS_JSON env && HAS_NETAPP_LIB env = true /\
        get_all server initial = (Ok (exit_ontap_facts r), st) /\
        dict_keys (exit_ontap_facts r) = category_names).
Proof.
  intros [x j n] invalid server given. split.
  - intros Hs H. unfold main. rewrite (check_state_accepted _ _ Hs).
    unfold construct. simpl in *. destruct x, j, n; try discriminate. simpl.
    split; intros ? st G; now rewrite G.
  - intros r st H. unfold main in H.
    destruct (check_state invalid given) as [s|e] eqn:C; [|discriminate].
    destruct (check_state_inv _ _ _ C) as [-> Hs].
    unfold construct in H. simpl in H.
    destruct x, j, n; try discriminate. simpl in H.
    destruct (get_all server initial) as [[g|e] st1] eqn:G; [|discriminate].
    injection H as <- <-. simpl.
    split; [reflexivity|]. split; [reflexivity|]. split; [exact Hs|].
    split; [reflexivity|]. split; [reflexivity|].
    exact (proj1 (get_all_keys server _ _ G)).
Qed.

(** ** The further properties on the session stub *)

Lemma unkeyed_response_is_sequence_witness :
  repeated_node_server (log initial) ("cluster-node-get-iter", max_records) =
    Response (iter_response node_records) /\
  get_generic_get_iter repeated_node_server "cluster-node-get-iter"
    (Some "cluster-node-info") FNone max_records "attributes-list" initial =
    (Ok (Some (TList
           [VDict [("node_name", VStr "nodeA"); ("node_uptime", VStr "10")];
            VDict [("node_name", VStr "nodeB"); ("node_uptime", VStr "20")];
            VDict [("node_name", VStr "nodeA"); ("node_uptime", VStr "30")]])),
     sent initial ("cluster-node-get-iter", max_records)).
Proof.
  split; [reflexivity|].
  apply (proj1 (unkeyed_response_is_sequence repeated_node_server
                  "cluster-node-get-iter" (Some "cluster-node-info") max_records
                  "attributes-list" initial (iter_response node_records) node_records
                  [node_attributes "nodeA" "10"; node_attributes "nodeB" "20";
                   node_attributes "nodeA" "30"]
                  eq_refl eq_refl
                  ltac:(repeat constructor))).
Defined.

Lemma table_entries_from_records_witness :
  exists entries response children,
    fst (get_generic_get_iter repeated_node_server "cluster-node-get-iter"
           (Some "cluster-node-info") (FStr "node-name") max_records
           "attributes-list" initial) = Ok (Some (TDict entries)) /\
    repeated_node_server (log initial) ("cluster-node-get-iter", max_records) =
      Response response /\
    get_child_by_name response "attributes-list" = Some children /\
    NoDup (dict_keys entries) /\
    length entries <= length children.
Proof.
  destruct (table_entries_from_records repeated_node_server "cluster-node-get-iter"
              (Some "cluster-node-info") (FStr "node-name") max_records
              "attributes-list" initial
              (TDict [(KStr "nodeA", VDict [("node_name", VStr "nodeA");
                                            ("node_uptime", VStr "30")]);
                      (KStr "nodeB", VDict [("node_name", VStr "nodeB");
                                            ("node_uptime", VStr "20")])])
              (sent initial ("cluster-node-get-iter", max_records))
              eq_refl eq_refl)
    as (entries & response & children & Ht & Hr & Hc & Hnd & _ & _ & Hlen).
  exists entries, response, children.
  split; [rewrite <- Ht; reflexivity|]. auto.
Defined.

Lemma first_bad_record_fails_call_witness :
  record_entry (Some "lun-info") (FStr "path") good_lun =
    Ok (KStr "/vol/vol1/lun1",
        VDict [("path", VStr "/vol/vol1/lun1"); ("size", VStr "1024")]) /\
  record_entry (Some "lun-info") (FStr "path") stray_child = Err KeyError /\
  get_generic_get_iter stray_child_server "lun-get-iter" (Some "lun-info")
    (FStr "path") max_records "attributes-list" initial =
    (Err KeyError, sent initial ("lun-get-iter", max_records)).
Proof.
  split; [reflexivity|]. split; [reflexivity|].
  apply (first_bad_record_fails_call stray_child_server "lun-get-iter"
           (Some "lun-info") (FStr "path") max_records "attributes-list" initial
           (iter_response [good_lun; stray_child; good_lun])
           [good_lun] stray_child [good_lun] KeyError eq_refl eq_refl eq_refl).
  - repeat constructor. eexists. reflexivity.
  - reflexivity.
Defined.

Lemma get_ifgrp_info_frame_witness :
  exists reqs,
    snd (get_ifgrp_info (canned_server []) ports_fetched) =
      mkState (netapp_info ports_fetched) (log ports_fetched ++ reqs) /\
    Forall (fun rq => fst rq = "net-port-ifgrp-get") reqs /\
    length reqs <= length port_table.
Proof.
  destruct (get_ifgrp_info_frame (canned_server []) ports_fetched)
    as (reqs & Hs & Hreqs & Hlen).
  exists reqs. split; [exact Hs|]. split; [exact Hreqs|].
  exact (Hlen port_table eq_refl).
Defined.

Lemma ifgrp_key_not_two_pieces_witness :
  filter (is_ifgrp odd_port_table) (dict_keys odd_port_table) = [KStr "node:A:a0a"] /\
  colons "node:A:a0a" <> 1 /\
  get_ifgrp_info (canned_server []) odd_ports_fetched =
    (Err ValueError, mkState (netapp_info odd_ports_fetched) (log odd_ports_fetched ++ [])).
Proof.
  assert (Hc : colons "node:A:a0a" <> 1) by (vm_compute; discriminate).
  split; [reflexivity|]. split; [exact Hc|].
  apply (ifgrp_key_not_two_pieces (canned_server []) odd_ports_fetched odd_port_table
           [] "node:A:a0a" [] []).
  - reflexivity.
  - intros k [<-|[]]. eexists. reflexivity.
  - reflexivity.
  - constructor.
  - exact I.
  - exact Hc.
Defined.

Lemma ifgrp_lookup_without_container_witness :
  ifgrp_without_attributes (log ports_fetched) (ifgrp_request ("nodeA", "a0a")) =
    Response [("num-records", [])] /\
  get_ifgrp_info ifgrp_without_attributes ports_fetched =
    (Err TypeError,
     mkState (netapp_info ports_fetched)
       [("net-port-get-iter", max_records);
        ("net-port-ifgrp-get", [("node", "nodeA"); ("ifgrp-name", "a0a")])]).
Proof.
  split; [reflexivity|].
  apply (ifgrp_lookup_without_container ifgrp_without_attributes ports_fetched
           port_table [] ("nodeA", "a0a") [] [] [("num-records", [])]).
  - reflexivity.
  - intros k [<-|[<-|[]]]; eexists; reflexivity.
  - reflexivity.
  - repeat constructor.
  - exact I.
  - reflexivity.
  - reflexivity.
Defined.

Lemma successful_run_categories_witness :
  get_all (canned_server []) initial = (Ok canned_facts, canned_final) /\
  dict_keys canned_facts = category_names.
Proof.
  assert (H : get_all (canned_server []) initial = (Ok canned_facts, canned_final))
    by (vm_compute; reflexivity).
  split; [exact H|].
  exact (proj1 (successful_run_categories (canned_server []) _ _ H)).
Defined.

Lemma successful_run_tables_witness :
  get_all (canned_server []) initial = (Ok canned_facts, canned_final) /\
  (forall name t, In (name, t) canned_facts -> none_or_keyed t) /\
  (exists npi, sget "net_port_info" canned_facts = Some (Some (TDict npi))).
Proof.
  assert (H : get_all (canned_server []) initial = (Ok canned_facts, canned_final))
    by (vm_compute; reflexivity).
  destruct (successful_run_tables (canned_server []) _ _ H) as (H1 & H2 & _).
  split; [exact H|]. split; [exact H1|exact H2].
Defined.

Lemma successful_run_requests_witness :
  get_all (canned_server []) initial = (Ok canned_facts, canned_final) /\
  exists lookups,
    log canned_final = requests_before_ifgrp ++ lookups ++ requests_after_ifgrp /\
    Forall (fun rq => fst rq = "net-port-ifgrp-get") lookups.
Proof.
  assert (H : get_all (canned_server []) initial = (Ok canned_facts, canned_final))
    by (vm_compute; reflexivity).
  destruct (successful_run_requests (canned_server []) _ _ H)
    as (lookups & npi & H1 & H2 & _).
  split; [exact H|]. exists lookups. split; [exact H1|exact H2].
Defined.

Lemma port_type_survives_normalization_witness :
  add_records (Some "net-port-info") (FTuple ["node"; "port"]) port_records (TDict []) =
    Ok (TDict port_table) /\
  select_ifgrps port_table (dict_keys port_table) [] = Ok [KStr "nodeA:a0a"].
Proof.
  assert (H : add_records (Some "net-port-info") (FTuple ["node"; "port"])
                port_records (TDict []) = Ok (TDict port_table)) by reflexivity.
  assert (Hrec : forall r, In r port_records ->
            exists items, select_attribute (Some "net-port-info") r = Ok (VDict items) /\
                          In "port-type" (dict_keys items)).
  { intros r [<-|[<-|[]]]; eexists; (split; [reflexivity|simpl; tauto]). }
  split; [exact H|].
  exact (proj2 (port_type_survives_normalization (Some "net-port-info")
                  (FTuple ["node"; "port"]) port_records port_table eq_refl H Hrec)).
Defined.

Lemma missing_library_fails_before_any_call_witness :
  main all_present sample_invalid (canned_server []) (Some "present") =
    (Err (FailJson "value of state must be one of: info, got: present"), initial) /\
  HAS_XMLTODICT (mkImports true false false) && HAS_JSON (mkImports true false false)
    && HAS_NETAPP_LIB (mkImports true false false) = false /\
  main (mkImports true false false) sample_invalid (canned_server []) (Some "info") =
    (Err (FailJson "json missing"), initial).
Proof.
  split; [|split; [reflexivity|]].
  - apply (proj1 (missing_library_fails_before_any_call all_present sample_invalid
                    (canned_server []) (Some "present")) "present" eq_refl).
    discriminate.
  - exact (proj2 (missing_library_fails_before_any_call (mkImports true false false)
                    sample_invalid (canned_server []) (Some "info"))
             (or_intror eq_refl) eq_refl).
Defined.

Lemma main_reports_unchanged_witness :
  get_all (canned_server []) initial = (Ok canned_facts, canned_final) /\
  main all_present sample_invalid (canned_server []) None =
    (Ok (mkExit "info" false canned_facts), canned_final) /\
  exit_changed (mkExit "info" false canned_facts) = false /\
  dict_keys (exit_ontap_facts (mkExit "info" false canned_facts)) = category_names.
Proof.
  assert (G : get_all (canned_server []) initial = (Ok canned_facts, canned_final))
    by (vm_compute; reflexivity).
  pose proof (proj1 (proj1 (main_reports_unchanged all_present sample_invalid
                              (canned_server []) None)
                       (or_introl eq_refl) eq_refl) _ _ G) as H.
  destruct (proj2 (main_reports_unchanged all_present sample_invalid
                     (canned_server []) None) _ _ H)
    as (H1 & _ & _ & _ & _ & H6).
  split; [exact G|]. split; [exact H|]. split; [exact H1|exact H6].
Defined.
